(** * Bootstrap, recovery and lifecycle core of the node application

  A shallow embedding of the parts of
  [src/ripple/app/main/Application.cpp] that establish the starting
  ledger, coalesce missing-node notifications, run the periodic sweep
  and answer the health probe, together with the properties of them
  that the design document states.

  Layout, definitions first:
  - [ServerOkay]   : [ApplicationImp::serverOkay]
  - [Sweep]        : [ApplicationImp::onDeadlineTimer] and [doSweep]
  - [MissingNode]  : [detail::AppFamily::missing_node (std::uint32_t)]
  - [Bootstrap]    : [getLastFullLedger] and [loadOldLedger]
  - [Demo]         : a small node on which the loader can be run
  and then the properties, one module of facts for each of the first
  four.                                                                 *)

From Stdlib Require Import List String Ascii Bool NArith ZArith Lia.
From Stdlib Require Import Sorted.
Import ListNotations.

Local Open Scope string_scope.
Local Open Scope list_scope.

(* ===================================================================== *)
(** ** The health probe                                                   *)
(* ===================================================================== *)

Module ServerOkay.

(** What [serverOkay] reads from the application.  Every field is the
    answer of one accessor the function calls; none of them is defined
    in [Application.cpp].  [NetworkOPs::OperatingMode] is an enum that
    the function only compares with [<], so a mode is its underlying
    integer and [omSYNCING] the enumerator it is compared with.
    [isCaughtUp] receives the reason string by reference and returns
    the verdict together with the string it leaves there. *)
Record App := {
  ELB_SUPPORT        : bool;                      (* config().ELB_SUPPORT *)
  isShutdown         : bool;
  isNeedNetworkLedger : bool;                     (* getOPs() *)
  getOperatingMode   : Z;                         (* getOPs() *)
  omSYNCING          : Z;
  isCaughtUp         : string -> bool * string;   (* getLedgerMaster() *)
  isLoadedLocal      : bool;                      (* getFeeTrack() *)
  isAmendmentBlocked : bool                       (* getOPs() *)
}.

(** [bool ApplicationImp::serverOkay (std::string& reason)]: the result
    and the final content of [reason].  The application is only read:
    it is an argument and not part of the result. *)
Definition serverOkay (a : App) (reason : string) : bool * string :=
  if negb (ELB_SUPPORT a) then (true, reason)
  else if isShutdown a then (false, "Server is shutting down")
  else if isNeedNetworkLedger a then
    (false, "Not synchronized with network yet")
  else if (getOperatingMode a <? omSYNCING a)%Z then
    (false, "Not synchronized with network")
  else
    let '(caughtUp, reason1) := isCaughtUp a reason in
    if negb caughtUp then (false, reason1)
    else if isLoadedLocal a then (false, "Too much load")
    else if isAmendmentBlocked a then (false, "Server version too old")
    else (true, reason1).

(** A server that is shutting down, waits for the network, is
    disconnected, lags, is loaded and is amendment blocked, with the
    load-balancer support switched by [elb]. *)
Definition sick (elb : bool) : App :=
  {| ELB_SUPPORT := elb; isShutdown := true; isNeedNetworkLedger := true;
     getOperatingMode := 0; omSYNCING := 2;
     isCaughtUp := fun _ => (false, "No recently-published ledger");
     isLoadedLocal := true; isAmendmentBlocked := true |}.

(** A server on which every check passes. *)
Definition healthy : App :=
  {| ELB_SUPPORT := true; isShutdown := false; isNeedNetworkLedger := false;
     getOperatingMode := 4; omSYNCING := 2;
     isCaughtUp := fun r => (true, r);
     isLoadedLocal := false; isAmendmentBlocked := false |}.

End ServerOkay.

(* ===================================================================== *)
(** ** The sweep and entropy timers                                       *)
(* ===================================================================== *)

Module Sweep.

(** The subsystems [doSweep] visits, named after the expression each
    call is made on. *)
Inductive Cache :=
| fullbelow | MasterTransaction | NodeStore | LedgerMaster
| TempNodeCache | Validations | InboundLedgers | acceptedLedgerCache
| treecache | cachedSLEs.

(** [onDeadlineTimer] compares its argument with the two timers the
    application owns; a listener can be handed any other timer. *)
Inductive Timer := m_entropyTimer | m_sweepTimer | otherTimer.

Definition Timer_eqb (a b : Timer) : bool :=
  match a, b with
  | m_entropyTimer, m_entropyTimer => true
  | m_sweepTimer, m_sweepTimer => true
  | otherTimer, otherTimer => true
  | _, _ => false
  end.

(** A job handed to the job queue: [jtSWEEP], name "sweep", body
    [doSweep()]. *)
Inductive Job := SweepJob.

(** Calls on collaborators, in the order they are made. *)
Inductive Event :=
| EvAddEntropy                 (* add_entropy (nullptr, 0)             *)
| EvFatal (msg : string)       (* m_journal.fatal << msg               *)
| EvSignalStop                 (* signalStop ()                        *)
| EvAddJob (j : Job)           (* m_jobQueue->addJob (jtSWEEP, ...)    *)
| EvSweep (c : Cache)          (* c.sweep () / cachedSLEs_.expire ()   *)
| EvSetExpiration (secs : N).  (* m_sweepTimer.setExpiration (secs)    *)

Record App := {
  space_available : N;  (* boost::filesystem::space (database_path).available *)
  siSweepInterval : N;  (* config_->getSize (siSweepInterval)           *)
  jobQueue        : list Job;     (* submitted, not yet run             *)
  sweepTimer      : option N;     (* expiration the sweep timer is armed with *)
  trace           : list Event    (* oldest first                       *)
}.

Definition emit (e : Event) (a : App) : App :=
  {| space_available := space_available a;
     siSweepInterval := siSweepInterval a;
     jobQueue := jobQueue a;
     sweepTimer := sweepTimer a;
     trace := trace a ++ [e] |}.

Definition addJob (j : Job) (a : App) : App :=
  let a := emit (EvAddJob j) a in
  {| space_available := space_available a;
     siSweepInterval := siSweepInterval a;
     jobQueue := jobQueue a ++ [j];
     sweepTimer := sweepTimer a;
     trace := trace a |}.

Definition setExpiration (secs : N) (a : App) : App :=
  let a := emit (EvSetExpiration secs) a in
  {| space_available := space_available a;
     siSweepInterval := siSweepInterval a;
     jobQueue := jobQueue a;
     sweepTimer := Some secs;
     trace := trace a |}.

(** The literal [512 * 1024 * 1024]. *)
Definition floor : N := 512 * 1024 * 1024.

(** The ten calls of [doSweep], top to bottom. *)
Definition sweepOrder : list Cache :=
  [fullbelow; MasterTransaction; NodeStore; LedgerMaster; TempNodeCache;
   Validations; InboundLedgers; acceptedLedgerCache; treecache; cachedSLEs].

(** [void doSweep ()] *)
Definition doSweep (a : App) : App :=
  let a := fold_left (fun a c => emit (EvSweep c) a) sweepOrder a in
  setExpiration (siSweepInterval a) a.

(** [void onDeadlineTimer (beast::DeadlineTimer& timer)] *)
Definition onDeadlineTimer (timer : Timer) (a : App) : App :=
  if Timer_eqb timer m_entropyTimer then emit EvAddEntropy a
  else if Timer_eqb timer m_sweepTimer then
    let a :=
      if (space_available a <? floor)%N then
        emit EvSignalStop
          (emit (EvFatal "Remaining free disk space is less than 512MB") a)
      else a in
    addJob SweepJob a
  else a.

(** Modelled from the spec: the job queue, an "opaque external
    scheduler" that runs submitted work "at-most-once": it takes a job
    it holds and runs it.  It takes the oldest; every job it can hold is
    the sweep, so which one it takes makes no difference. *)
Definition runJob (a : App) : App :=
  match jobQueue a with
  | [] => a
  | SweepJob :: rest =>
      doSweep {| space_available := space_available a;
                 siSweepInterval := siSweepInterval a;
                 jobQueue := rest;
                 sweepTimer := sweepTimer a;
                 trace := trace a |}
  end.

Definition isSweep (e : Event) : bool :=
  match e with EvSweep _ => true | _ => false end.

Definition isAddJob (e : Event) : bool :=
  match e with EvAddJob _ => true | _ => false end.

Definition isSignalStop (e : Event) : bool :=
  match e with EvSignalStop => true | _ => false end.

(** The application just after the sweep timer fired (so the timer is
    not armed), with nothing queued, [mib] MiB free and a 60 second
    sweep interval. *)
Definition fired (mib : N) : App :=
  {| space_available := mib * 1024 * 1024; siSweepInterval := 60;
     jobQueue := []; sweepTimer := None; trace := [] |}.

End Sweep.

(* ===================================================================== *)
(** ** Coalescing of missing-node notifications                           *)
(* ===================================================================== *)

Module MissingNode.

(** A [std::uint32_t] sequence number and a [uint256] hash.  Nothing is
    added to either, so no wrap-around is involved. *)
Definition seq_t := N.
Definition uint256 := N.

(** Where one call of [missing_node (seq)] stands.  [maxSeq] is read and
    written only while [maxSeqLock] is held, so each locked region is one
    indivisible step and a call is observed between them:
    - [Called seq]: before [std::unique_lock lock (maxSeqLock)];
    - [Acquiring seq]: in the [do] loop after [lock.unlock ()], about to
      run [getHashBySeq] and [acquire] for the local [seq];
    - [Relocking seq]: after that attempt, before [lock.lock ()];
    - [Returned]: the call is over.
    A call made from inside [acquire] by the same thread is, for the
    shared field, one more call that runs while its caller is
    [Acquiring]. *)
Inductive Call :=
| Called (seq : seq_t)
| Acquiring (seq : seq_t)
| Relocking (seq : seq_t)
| Returned.

Inductive Event :=
| EvNotify (seq : seq_t)                  (* the entry region ran for [seq] *)
| EvAttempt (seq : seq_t)                 (* getHashBySeq (seq)             *)
| EvAcquire (hash : uint256) (seq : seq_t)(* acquire (hash, seq, fcGENERIC) *)
| EvExit (seq : seq_t).                   (* the do loop ended on [seq]     *)

(** One [AppFamily]: its [maxSeq] field, the calls in flight and what
    has happened so far (oldest first). *)
Record Family := {
  maxSeq : seq_t;
  calls  : list Call;
  log    : list Event
}.

Section Handler.

(** [app_.getLedgerMaster().getHashBySeq] *)
Variable getHashBySeq : seq_t -> uint256.

(** The next step of one call, given the current [maxSeq]: the new
    [maxSeq], the new position of the call and the events of the step. *)
Definition advance (m : seq_t) (c : Call) : seq_t * Call * list Event :=
  match c with
  | Called seq =>
      if (m =? 0)%N then
        (* maxSeq = seq; do { seq = maxSeq; lock.unlock (); *)
        (seq, Acquiring seq, [EvNotify seq])
      else if (m <? seq)%N then
        (seq, Returned, [EvNotify seq])
      else
        (m, Returned, [EvNotify seq])
  | Acquiring seq =>
      let hash := getHashBySeq seq in
      (m, Relocking seq,
       if (hash =? 0)%N then [EvAttempt seq]
       else [EvAttempt seq; EvAcquire hash seq])
  | Relocking seq =>
      (* lock.lock (); } while (maxSeq != seq); *)
      if negb (m =? seq)%N then (m, Acquiring m, [])
      else (m, Returned, [EvExit seq])
  | Returned => (m, Returned, [])
  end.

Fixpoint set_nth {A} (i : nat) (x : A) (l : list A) : list A :=
  match l, i with
  | [], _ => []
  | _ :: l', O => x :: l'
  | y :: l', S i' => y :: set_nth i' x l'
  end.

(** The scheduler lets call number [i] take its next step. *)
Definition step (i : nat) (f : Family) : Family :=
  match nth_error (calls f) i with
  | None => f
  | Some c =>
      let '(m, c', evs) := advance (maxSeq f) c in
      {| maxSeq := m; calls := set_nth i c' (calls f); log := log f ++ evs |}
  end.

(** An interleaving is the list of the calls that step, in order. *)
Definition run (schedule : list nat) (f : Family) : Family :=
  fold_left (fun f i => step i f) schedule f.

(** A fresh family ([maxSeq = 0]) that receives the notifications
    [seqs], none of which has taken the lock yet. *)
Definition init (seqs : list seq_t) : Family :=
  {| maxSeq := 0%N; calls := map Called seqs; log := [] |}.

End Handler.

Definition inLoop (c : Call) : bool :=
  match c with Acquiring _ | Relocking _ => true | _ => false end.

(** Number of recovery loops that are active. *)
Definition activeLoops (f : Family) : nat :=
  List.length (filter inLoop (calls f)).

(** The sequence numbers notified so far. *)
Fixpoint notified (l : list Event) : list seq_t :=
  match l with
  | [] => []
  | EvNotify s :: l' => s :: notified l'
  | _ :: l' => notified l'
  end.

Definition maxOf (l : list seq_t) : seq_t := fold_right N.max 0%N l.

(** What holds of one call in a family. *)
Definition callOk (f : Family) (c : Call) : Prop :=
  match c with
  | Called s => s <> 0%N
  | Acquiring s => s <> 0%N /\ (s <= maxSeq f)%N
  | Relocking s =>
      s <> 0%N /\ (s <= maxSeq f)%N /\ In (EvAttempt s) (log f)
  | Returned => True
  end.

(** What holds of a family that was only ever notified of non-zero
    sequence numbers. *)
Definition Inv (f : Family) : Prop :=
  maxSeq f = maxOf (notified (log f)) /\
  (maxSeq f = 0%N -> activeLoops f = 0%nat) /\
  (activeLoops f <= 1)%nat /\
  (forall c, In c (calls f) -> callOk f c).

End MissingNode.

(* ===================================================================== *)
(** ** Establishing the starting ledger                                   *)
(* ===================================================================== *)

Module Bootstrap.

Definition uint256 := N.

(** *** Json::Value

    The JSON library ([ripple/json]) is not part of [Application.cpp];
    the value type is the usual tree and the accessors below are the
    ones the loader calls.  Numbers, strings and booleans are converted
    by the library ([asUInt], [asBool], [asString]), which the loader
    takes as given (see [Externals]). *)
#[warnings="-register-all"]
Inductive Json :=
| JNull
| JBool (b : bool)
| JNum (z : Z)
| JString (s : string)
| JArray (elements : list Json)
| JObject (members : list (string * Json)).

Fixpoint lookup (key : string) (ms : list (string * Json)) : option Json :=
  match ms with
  | [] => None
  | (k, v) :: ms' => if String.eqb key k then Some v else lookup key ms'
  end.

(** Modelled from the spec: [Json::Value::isMember]; the document "may
    be wrapped under" a key, an array or a scalar has no keys. *)
Definition isMember (key : string) (v : Json) : bool :=
  match v with
  | JObject ms => match lookup key ms with Some _ => true | None => false end
  | _ => false
  end.

(** Modelled from the spec: [Json::Value::operator[] (key)]; a key that
    is absent reads as null. *)
Definition member (key : string) (v : Json) : Json :=
  match v with
  | JObject ms => match lookup key ms with Some x => x | None => JNull end
  | _ => JNull
  end.

Definition isArray (v : Json) : bool :=
  match v with JArray _ => true | _ => false end.

(** The elements [v[0] .. v[v.size () - 1]]. *)
Definition elements_of (v : Json) : list Json :=
  match v with JArray es => es | _ => [] end.

(** Modelled from the spec: [Json::Value::removeMember]; "remove it,
    parse the remainder". *)
Definition removeMember (key : string) (v : Json) : Json :=
  match v with
  | JObject ms => JObject (filter (fun kv => negb (String.eqb key (fst kv))) ms)
  | _ => v
  end.

(** *** Effects

    The loader talks to its collaborators and can end in three ways: it
    returns, an exception leaves it, or an [assert] stops the process.
    [exn] are the exceptions its handlers name. *)
Inductive exn := SHAMapMissingNode | bad_lexical_cast.

(** What a call on a collaborator gives back. *)
Inductive res (A : Type) :=
| Val (a : A)
| Raise (e : exn).
Arguments Val {A} a.
Arguments Raise {A} e.

(** How a computation ends; [Uncaught] is an exception of a type that no
    handler of the loader names, on its way out. *)
Inductive outcome (A : Type) :=
| Ret (a : A)
| Throw (e : exn)
| Abort
| Uncaught.
Arguments Ret {A} a.
Arguments Throw {A} e.
Arguments Abort {A}.
Arguments Uncaught {A}.

Inductive Severity := lsTrace | lsInfo | lsWarning | lsError | lsFatal.

Inductive Validity := SigBad | SigGoodOnly | Valid.

(** Modelled from the spec: [LedgerReplay::txns_], whose declaration is
    not in [Application.cpp]: an "ordered mapping from original
    transaction index to transaction content", that is a [std::map]
    whose iteration follows the keys.  It is kept as the list of its
    pairs in iteration order; [emplace] leaves the map alone when the
    key is already there. *)
Fixpoint emplace {V : Type} (k : N) (v : V) (m : list (N * V))
  : list (N * V) :=
  match m with
  | [] => [(k, v)]
  | (k', v') :: m' =>
      if (k <? k')%N then (k, v) :: m
      else if (k =? k')%N then m
      else (k', v') :: emplace k v m'
  end.

(** *** The collaborators

    Everything [getLastFullLedger] and [loadOldLedger] call that is
    declared elsewhere.  A ledger is held through a shared pointer and
    changed in place; here each changing call returns the changed
    ledger. *)
Class Externals := {
  Ledger   : Type;
  STTx     : Type;
  TxMeta   : Type;
  STObject : Type;
  (** whether [assert] is compiled out *)
  NDEBUG : bool;
  (** [Ledger] *)
  info_seq         : Ledger -> N;
  info_parentHash  : Ledger -> uint256;
  info_accountHash : Ledger -> uint256;
  info_closeTime   : Ledger -> N;
  info_closeFlags  : Ledger -> N;
  getHash          : Ledger -> uint256;
  addJson          : Ledger -> string;            (* addJson (p, {l, full}) *)
  setClosed        : Ledger -> Ledger;
  setImmutable     : Ledger -> Ledger;
  setValidated     : Ledger -> Ledger;
  walkLedger       : Ledger -> bool;
  assertSane       : Ledger -> bool;
  txMap            : Ledger -> list uint256;      (* keys, in iteration order *)
  txRead           : Ledger -> uint256 -> res (STTx * TxMeta);
  sfTransactionIndex : TxMeta -> N;
  newLedger        : N -> N -> Ledger;            (* Ledger (seq, closeTime, ..) *)
  setTotalDrops    : N -> Ledger -> Ledger;
  setTotalDropsVBC : N -> Ledger -> Ledger;
  addSLE           : STObject -> uint256 -> Ledger -> Ledger * bool;
  flushDirty       : Ledger -> Ledger;
  setAccepted      : N -> N -> bool -> Ledger -> Ledger;
  (** the persisted ledger index *)
  loadLedgerHelper : res (option Ledger * N * uint256); (* highest LedgerSeq *)
  loadByHash       : uint256 -> res (option Ledger);
  loadByIndex      : N -> res (option Ledger);
  haveLedger       : N -> bool;                   (* getLedgerMaster () *)
  (** [InboundLedger (hash, 0, fcGENERIC)] *)
  checkLocal       : uint256 -> res bool;
  il_getLedger     : uint256 -> option Ledger;
  (** [timeKeeper ().closeTime ()] where the file is read and where the
      open ledger is made *)
  closeTime_parse  : N;
  closeTime_open   : N;
  (** files and text *)
  openFile         : string -> option string;     (* std::ifstream *)
  readerParse      : string -> option Json;       (* Json::Reader::parse *)
  SetHex           : string -> uint256;
  (** [beast::lexicalCastThrow]: the number a string converts to, and
      whether what it throws on any other string is a
      [boost::bad_lexical_cast] *)
  lexicalCast_u32  : string -> option N;
  lexicalCast_u64  : string -> option N;
  throws_bad_lexical_cast : bool;
  asUInt           : Json -> N;
  asBool           : Json -> bool;
  asString         : Json -> string;
  parseSLE         : Json -> option STObject      (* STParsedJSONObject *)
}.

Section Effects.

Context {E : Externals}.

(** Modelled from the spec: [LedgerReplay], the "replay package": the
    ledger it is built from, its close time and flags, and [txns_]. *)
Record LedgerReplay := {
  prevLedger_ : Ledger;
  closeTime_  : N;
  closeFlags_ : N;
  txns_       : list (N * STTx)
}.

(** Calls that change the application or the world outside, in order.
    A log line is recorded by its fixed text. *)
Inductive Event :=
| EvLog (sev : Severity) (msg : string)
| EvNewLedger (seq closeTime : N)        (* std::make_shared<Ledger> (seq, ..) *)
| EvSetLedgerRangePresent (lo hi : N)
| EvMakeOpenLedger (l : Ledger) (closeTime : N)  (* Ledger (open_ledger, l, ..) *)
| EvSwitchLCL (l : Ledger)
| EvForceValid (l : Ledger)
| EvSetLastCloseTime (t : N)
| EvOpenLedgerEmplace (l : Ledger)
| EvForceValidity (txID : uint256) (v : Validity)
| EvRawTxInsert (txID : uint256) (tx : STTx)
| EvTakeReplay (r : LedgerReplay).

(** A computation: the events it caused and how it ended. *)
Definition M (A : Type) : Type := list Event * outcome A.

Definition ret {A} (a : A) : M A := ([], Ret a).

Definition bind {A B} (m : M A) (k : A -> M B) : M B :=
  match m with
  | (evs, Ret a) => let '(evs', o) := k a in (evs ++ evs', o)
  | (evs, Throw e) => (evs, Throw e)
  | (evs, Abort) => (evs, Abort)
  | (evs, Uncaught) => (evs, Uncaught)
  end.

Definition emit (e : Event) : M unit := ([e], Ret tt).

Definition log (sev : Severity) (msg : string) : M unit := emit (EvLog sev msg).

Definition lift {A} (r : res A) : M A :=
  match r with
  | Val a => ret a
  | Raise e => ([], Throw e)
  end.

(** [try { m } catch (...) { h }] *)
Definition try_catch {A} (m : M A) (h : exn -> M A) : M A :=
  match m with
  | (evs, Throw e) => let '(evs', o) := h e in (evs ++ evs', o)
  | _ => m
  end.

(** [assert (false)] *)
Definition assert_false : M unit :=
  if NDEBUG then ret tt else ([], Abort).

End Effects.

Notation "x <- m ;; k" := (bind m (fun x => k))
  (at level 61, m at next level, right associativity).
Notation "m ;;; k" := (bind m (fun _ => k))
  (at level 61, right associativity).

Section Loader.

Context {E : Externals}.

Fixpoint foldM {A B} (f : B -> A -> M B) (l : list A) (b : B) : M B :=
  match l with
  | [] => ret b
  | a :: l' => b' <- f b a ;; foldM f l' b'
  end.

(** [Ledger::pointer ApplicationImp::getLastFullLedger ()]; [None] is
    the null pointer. *)
Definition getLastFullLedger : M (option Ledger) :=
  try_catch
    (r <- lift loadLedgerHelper ;;
     let '(ledger, ledgerSeq, ledgerHash) := r in
     match ledger with
     | None => ret None
     | Some ledger =>
         let ledger := setClosed ledger in
         let ledger := setImmutable ledger in
         let ledger :=
           if haveLedger ledgerSeq then setValidated ledger else ledger in
         if negb (getHash ledger =? ledgerHash)%N then
           (* the two lines written when the error stream is active *)
           log lsError "Failed on ledger" ;;;
           log lsError (addJson ledger) ;;;
           assert_false ;;;
           ret None
         else
           log lsTrace "Loaded ledger: " ;;;
           ret (Some ledger)
     end)
    (fun e =>
       match e with
       | SHAMapMissingNode =>
           log lsWarning "Database contains ledger with missing nodes: " ;;;
           ret None
       | _ => ([], Throw e)
       end).

(** The locals [seq], [closeTime], [closeTimeResolution],
    [closeTimeEstimated], [totalDrops] and [totalDropsVBC] of the file
    branch. *)
Record Header := {
  h_seq                 : N;
  h_closeTime           : N;
  h_closeTimeResolution : N;
  h_closeTimeEstimated  : bool;
  h_totalDrops          : N;
  h_totalDropsVBC       : N
}.

(** Their initial values. *)
Definition defaults : Header :=
  {| h_seq := 1; h_closeTime := closeTime_parse;
     h_closeTimeResolution := 30; h_closeTimeEstimated := false;
     h_totalDrops := 0; h_totalDropsVBC := 0 |}.

(** "accept a wrapped ledger" *)
Definition unwrap (jLedger : Json) : Json :=
  let ledger := jLedger in
  let ledger :=
    if isMember "result" ledger then member "result" ledger else ledger in
  let ledger :=
    if isMember "ledger" ledger then member "ledger" ledger else ledger in
  ledger.

(** What a failed [beast::lexicalCastThrow] leaves behind: the
    [boost::bad_lexical_cast] that [loadOldLedger] has a handler for, or
    an exception that no handler here names. *)
Definition castFailure {A} : M A :=
  ([], if throws_bad_lexical_cast then Throw bad_lexical_cast else Uncaught).

(** Modelled from the spec: [beast::lexicalCastThrow <std::uint64_t>],
    whose header is not part of [Application.cpp].  It reads one of the
    "two independent total-supply counters" and throws when the string
    is not a number; the type of what it throws is left open, see
    [castFailure]. *)
Definition lexicalCastThrow_u64 (s : string) : M N :=
  match lexicalCast_u64 s with
  | Some n => ret n
  | None => castFailure
  end.

(** Modelled from the spec: [beast::lexicalCastThrow <std::uint32_t>],
    whose header is not part of [Application.cpp].  It reads "a decimal
    sequence number" and throws when the identifier is none; the type of
    what it throws is left open, see [castFailure]. *)
Definition lexicalCastThrow_u32 (s : string) : M N :=
  match lexicalCast_u32 s with
  | Some n => ret n
  | None => castFailure
  end.

(** The block guarded by [isMember ("accountState")]: the header and the
    value [ledger] refers to afterwards. *)
Definition readHeader (ledger : Json) : M (Header * Json) :=
  if isMember "accountState" ledger then
    let seq :=
      if isMember "ledger_index" ledger
      then asUInt (member "ledger_index" ledger) else h_seq defaults in
    let closeTime :=
      if isMember "close_time" ledger
      then asUInt (member "close_time" ledger) else h_closeTime defaults in
    let closeTimeResolution :=
      if isMember "close_time_resolution" ledger
      then asUInt (member "close_time_resolution" ledger)
      else h_closeTimeResolution defaults in
    let closeTimeEstimated :=
      if isMember "close_time_estimated" ledger
      then asBool (member "close_time_estimated" ledger)
      else h_closeTimeEstimated defaults in
    totalDrops <-
      (if isMember "total_coins" ledger
       then lexicalCastThrow_u64 (asString (member "total_coins" ledger))
       else ret (h_totalDrops defaults)) ;;
    totalDropsVBC <-
      (if isMember "total_coinsVBC" ledger
       then lexicalCastThrow_u64 (asString (member "total_coinsVBC" ledger))
       else ret (h_totalDropsVBC defaults)) ;;
    ret ({| h_seq := seq; h_closeTime := closeTime;
            h_closeTimeResolution := closeTimeResolution;
            h_closeTimeEstimated := closeTimeEstimated;
            h_totalDrops := totalDrops; h_totalDropsVBC := totalDropsVBC |},
         member "accountState" ledger)
  else ret (defaults, ledger).

(** One turn of the loop over the state nodes. *)
Definition addEntry (loadLedger : Ledger) (entry : Json) : M Ledger :=
  let uIndex := SetHex (asString (member "index" entry)) in
  let entry := removeMember "index" entry in
  match parseSLE entry with
  | Some object =>
      if negb (uIndex =? 0)%N then
        let '(loadLedger, ok) := addSLE object uIndex loadLedger in
        (if ok then ret tt
         else log lsWarning "Couldn't add serialized ledger: ") ;;;
        ret loadLedger
      else
        log lsWarning "Invalid entry in ledger" ;;; ret loadLedger
  | None =>
      log lsWarning "Invalid entry in ledger" ;;; ret loadLedger
  end.

(** The ledger built from a header and an array of state nodes. *)
Definition buildLedger (h : Header) (entries : list Json) : M Ledger :=
  emit (EvNewLedger (h_seq h) (h_closeTime h)) ;;;
  let loadLedger := newLedger (h_seq h) (h_closeTime h) in
  let loadLedger := setTotalDrops (h_totalDrops h) loadLedger in
  let loadLedger := setTotalDropsVBC (h_totalDropsVBC h) loadLedger in
  loadLedger <- foldM addEntry entries loadLedger ;;
  let loadLedger := setClosed loadLedger in
  let loadLedger := flushDirty loadLedger in
  ret (setAccepted (h_closeTime h) (h_closeTimeResolution h)
         (negb (h_closeTimeEstimated h)) loadLedger).

(** The file branch once the document is parsed. *)
Definition ledgerFromJson (jLedger : Json) : M (option Ledger) :=
  r <- readHeader (unwrap jLedger) ;;
  let '(h, ledger) := r in
  if negb (isArray ledger) then
    log lsFatal "State nodes must be an array" ;;; ret None
  else
    loadLedger <- buildLedger h (elements_of ledger) ;;
    ret (Some loadLedger).

(** The file branch. *)
Definition loadFromFile (ledgerID : string) : M (option Ledger) :=
  match openFile ledgerID with
  | None => log lsFatal "Unable to open file" ;;; ret None
  | Some ledgerFile =>
      match readerParse ledgerFile with
      | None => log lsFatal "Unable to parse ledger JSON" ;;; ret None
      | Some jLedger => ledgerFromJson jLedger
      end
  end.

(** "Try to build the ledger from the back end" *)
Definition fromBackEnd (hash : uint256) : M (option Ledger) :=
  ok <- lift (checkLocal hash) ;;
  if ok then ret (il_getLedger hash) else ret None.

(** The chain of branches that assigns [loadLedger]. *)
Definition findLedger (ledgerID : string) (isFileName : bool)
  : M (option Ledger) :=
  if isFileName then loadFromFile ledgerID
  else if (String.length ledgerID =? 0)%nat || String.eqb ledgerID "latest"
  then getLastFullLedger
  else if (String.length ledgerID =? 64)%nat then
    let hash := SetHex ledgerID in
    loadLedger <- lift (loadByHash hash) ;;
    match loadLedger with
    | Some _ => ret loadLedger
    | None => fromBackEnd hash
    end
  else
    seq <- lexicalCastThrow_u32 ledgerID ;;
    lift (loadByIndex seq).

(** The first [if (replay)]: the ledger to install and the ledger to
    replay, or [None] after "Replay ledger missing/damaged". *)
Definition findParent (replayLedger : Ledger)
  : M (option (Ledger * option Ledger)) :=
  log lsInfo "Loading parent ledger" ;;;
  loadLedger <- lift (loadByHash (info_parentHash replayLedger)) ;;
  match loadLedger with
  | Some l => ret (Some (l, Some replayLedger))
  | None =>
      log lsInfo "Loading parent ledger from node store" ;;;
      loadLedger <- fromBackEnd (info_parentHash replayLedger) ;;
      match loadLedger with
      | None =>
          log lsFatal "Replay ledger missing/damaged" ;;;
          assert_false ;;;
          ret None
      | Some l => ret (Some (l, Some replayLedger))
      end
  end.

(** Everything up to the first [setClosed]: [None] when the function has
    already returned [false]. *)
Definition selectLedger (ledgerID : string) (replay isFileName : bool)
  : M (option (Ledger * option Ledger)) :=
  loadLedger <- findLedger ledgerID isFileName ;;
  match loadLedger with
  | None => log lsFatal "No Ledger found from ledgerID=" ;;; ret None
  | Some loadLedger =>
      if replay then findParent loadLedger
      else ret (Some (loadLedger, None))
  end.

(** One turn of the loop over the transactions of the replayed ledger. *)
Definition replayTx (replayLedger : Ledger) (txns : list (N * STTx))
    (txID : uint256) : M (list (N * STTx)) :=
  txPair <- lift (txRead replayLedger txID) ;;
  let txIndex := sfTransactionIndex (snd txPair) in
  emit (EvForceValidity txID SigGoodOnly) ;;;
  let txns := emplace txIndex (fst txPair) txns in
  emit (EvRawTxInsert txID (fst txPair)) ;;;
  ret txns.

(** The second [if (replay)]. *)
Definition buildReplay (replayLedger : Ledger) : M unit :=
  txns <- foldM (replayTx replayLedger) (txMap replayLedger) [] ;;
  emit (EvTakeReplay {| prevLedger_ := replayLedger;
                        closeTime_ := info_closeTime replayLedger;
                        closeFlags_ := info_closeFlags replayLedger;
                        txns_ := txns |}).

(** The three checks, on the ledger as it stands after [setClosed]. *)
Definition passesGate (l : Ledger) : bool :=
  negb (info_accountHash l =? 0)%N && walkLedger l && assertSane l.

(** From [loadLedger->setClosed ()] to the end of the [try] block;
    [replayLedger] is set exactly when [replay] is. *)
Definition validateAndInstall (loadLedger : Ledger)
    (replayLedger : option Ledger) : M bool :=
  let loadLedger := setClosed loadLedger in
  log lsInfo "Loading ledger " ;;;
  if (info_accountHash loadLedger =? 0)%N then
    log lsFatal "Ledger is empty." ;;; assert_false ;;; ret false
  else if negb (walkLedger loadLedger) then
    log lsFatal "Ledger is missing nodes." ;;; assert_false ;;; ret false
  else if negb (assertSane loadLedger) then
    log lsFatal "Ledger is not sane." ;;; assert_false ;;; ret false
  else
    emit (EvSetLedgerRangePresent (info_seq loadLedger) (info_seq loadLedger)) ;;;
    emit (EvMakeOpenLedger loadLedger closeTime_open) ;;;
    emit (EvSwitchLCL loadLedger) ;;;
    emit (EvForceValid loadLedger) ;;;
    emit (EvSetLastCloseTime (info_closeTime loadLedger)) ;;;
    emit (EvOpenLedgerEmplace loadLedger) ;;;
    match replayLedger with
    | Some replayLedger => buildReplay replayLedger
    | None => ret tt
    end ;;;
    ret true.

(** [bool ApplicationImp::loadOldLedger (ledgerID, replay, isFileName)] *)
Definition loadOldLedger (ledgerID : string) (replay isFileName : bool)
  : M bool :=
  try_catch
    (sel <- selectLedger ledgerID replay isFileName ;;
     match sel with
     | None => ret false
     | Some (loadLedger, replayLedger) =>
         validateAndInstall loadLedger replayLedger
     end)
    (fun e =>
       match e with
       | SHAMapMissingNode =>
           log lsFatal "Data is missing for selected ledger" ;;; ret false
       | bad_lexical_cast =>
           log lsFatal "Ledger specified '" ;;; ret false
       end).

(** Events that make a ledger authoritative or hand data downstream:
    everything but log lines and the construction of a ledger from a
    file. *)
Definition isInstall (e : Event) : bool :=
  match e with
  | EvLog _ _ | EvNewLedger _ _ => false
  | _ => true
  end.

(** An entry the loop keeps. *)
Definition entryValid (entry : Json) : bool :=
  match parseSLE (removeMember "index" entry) with
  | Some _ => negb (SetHex (asString (member "index" entry)) =? 0)%N
  | None => false
  end.

(** The ledger once [addSLE] was called for an entry the loop keeps. *)
Definition added (loadLedger : Ledger) (entry : Json) : Ledger :=
  match parseSLE (removeMember "index" entry) with
  | Some object =>
      fst (addSLE object (SetHex (asString (member "index" entry)))
             loadLedger)
  | None => loadLedger
  end.

(** The value the loop runs over. *)
Definition stateNodes (jLedger : Json) : Json :=
  let ledger := unwrap jLedger in
  if isMember "accountState" ledger then member "accountState" ledger
  else ledger.

(** The in-ledger index of a transaction of [replayLedger]. *)
Definition txIndex (replayLedger : Ledger) (txID : uint256) : option N :=
  match txRead replayLedger txID with
  | Val txPair => Some (sfTransactionIndex (snd txPair))
  | Raise _ => None
  end.

(** The warning that reports a skipped entry. *)
Definition isSkip (e : Event) : bool :=
  match e with
  | EvLog lsWarning msg => String.eqb msg "Invalid entry in ledger"
  | _ => false
  end.

(** A log line. *)
Definition isLog (e : Event) : bool :=
  match e with EvLog _ _ => true | _ => false end.

(** Every event of [m] satisfies [P]. *)
Definition every (P : Event -> Prop) {A} (m : M A) : Prop :=
  Forall P (fst m).

(** No event of [m] makes a ledger authoritative. *)
Definition quiet {A} (m : M A) : Prop :=
  every (fun e => isInstall e = false) m.

(** An event that installs a ledger installs one that passes the gate. *)
Definition gated (e : Event) : Prop :=
  match e with
  | EvMakeOpenLedger l _ | EvSwitchLCL l | EvForceValid l
  | EvOpenLedgerEmplace l => passesGate l = true
  | _ => True
  end.

End Loader.

End Bootstrap.

(* ===================================================================== *)
(** ** A small node to run the loader on                                  *)
(* ===================================================================== *)

Module Demo.
Import Bootstrap.
Local Open Scope N_scope.

(** A ledger reduced to what the loader looks at. *)
Record DLedger := {
  d_seq         : N;
  d_hash        : uint256;
  d_parentHash  : uint256;
  d_accountHash : uint256;
  d_closeTime   : N;
  d_closeFlags  : N;
  d_closed      : bool;
  d_state       : list (uint256 * string);        (* index, entry type *)
  d_txs         : list (uint256 * (string * N));  (* id, (content, index) *)
  d_walkable    : bool;
  d_sane        : bool
}.

Definition d_setClosed (l : DLedger) : DLedger :=
  {| d_seq := d_seq l; d_hash := d_hash l; d_parentHash := d_parentHash l;
     d_accountHash := d_accountHash l; d_closeTime := d_closeTime l;
     d_closeFlags := d_closeFlags l; d_closed := true;
     d_state := d_state l; d_txs := d_txs l;
     d_walkable := d_walkable l; d_sane := d_sane l |}.

Definition d_newLedger (seq closeTime : N) : DLedger :=
  {| d_seq := seq; d_hash := 0; d_parentHash := 0; d_accountHash := 0;
     d_closeTime := closeTime; d_closeFlags := 0; d_closed := false;
     d_state := []; d_txs := []; d_walkable := true; d_sane := true |}.

(** An entry is refused when its index is taken; the account hash of the
    toy is the sum of the indexes. *)
Definition d_addSLE (object : string) (index : uint256) (l : DLedger)
  : DLedger * bool :=
  if existsb (fun kv => (fst kv =? index)%N) (d_state l) then (l, false)
  else
    ({| d_seq := d_seq l; d_hash := d_hash l; d_parentHash := d_parentHash l;
        d_accountHash := (d_accountHash l + index)%N;
        d_closeTime := d_closeTime l; d_closeFlags := d_closeFlags l;
        d_closed := d_closed l;
        d_state := d_state l ++ [(index, object)]; d_txs := d_txs l;
        d_walkable := d_walkable l; d_sane := d_sane l |}, true).

Definition d_txRead (l : DLedger) (txID : uint256) : res (string * N) :=
  match find (fun kv => (fst kv =? txID)%N) (d_txs l) with
  | Some (_, p) => Val p
  | None => Raise SHAMapMissingNode
  end.

Definition digit (base : N) (c : ascii) : option N :=
  let n := N_of_ascii c in
  let d :=
    if (48 <=? n)%N && (n <=? 57)%N then Some (n - 48)%N
    else if (97 <=? n)%N && (n <=? 102)%N then Some (n - 87)%N
    else if (65 <=? n)%N && (n <=? 70)%N then Some (n - 55)%N
    else None in
  match d with
  | Some v => if (v <? base)%N then Some v else None
  | None => None
  end.

(** The digits of [s] in [base], or [None] if [s] has another character. *)
Fixpoint number (base : N) (s : string) (acc : N) : option N :=
  match s with
  | EmptyString => Some acc
  | String c s' =>
      match digit base c with
      | Some d => number base s' (acc * base + d)%N
      | None => None
      end
  end.

Definition d_lexicalCast (s : string) : option N :=
  match s with
  | EmptyString => None
  | _ => number 10 s 0
  end.

Definition d_SetHex (s : string) : uint256 :=
  match number 16 s 0 with Some n => n | None => 0%N end.

Definition d_parseSLE (j : Json) : option string :=
  match j with
  | JObject ms =>
      match lookup "LedgerEntryType" ms with
      | Some (JString t) => Some t
      | _ => None
      end
  | _ => None
  end.

(** The node: whether asserts are compiled out, the ledgers the
    persisted index holds, what it reports as the highest ledger, and
    the documents its files parse to.  On this node a failed cast throws
    a [boost::bad_lexical_cast]. *)
Definition node (ndebug : bool) (db : list DLedger)
    (latest : res (option DLedger * N * uint256))
    (files : string -> option Json) : Externals :=
  {| Ledger := DLedger; STTx := string; TxMeta := N; STObject := string;
     NDEBUG := ndebug;
     info_seq := d_seq; info_parentHash := d_parentHash;
     info_accountHash := d_accountHash; info_closeTime := d_closeTime;
     info_closeFlags := d_closeFlags; getHash := d_hash;
     addJson := fun _ => "{ledger}";
     setClosed := d_setClosed; setImmutable := fun l => l;
     setValidated := fun l => l;
     walkLedger := d_walkable; assertSane := d_sane;
     txMap := fun l => map fst (d_txs l);
     txRead := d_txRead;
     sfTransactionIndex := fun i => i;
     newLedger := d_newLedger;
     setTotalDrops := fun _ l => l; setTotalDropsVBC := fun _ l => l;
     addSLE := d_addSLE; flushDirty := fun l => l;
     setAccepted := fun _ _ _ l => l;
     loadLedgerHelper := latest;
     loadByHash := fun h => Val (find (fun l => (d_hash l =? h)%N) db);
     loadByIndex := fun i => Val (find (fun l => (d_seq l =? i)%N) db);
     haveLedger := fun _ => false;
     checkLocal := fun _ => Val false;
     il_getLedger := fun _ => None;
     closeTime_parse := 1000; closeTime_open := 2000;
     openFile := fun path => Some path;
     readerParse := files;
     SetHex := d_SetHex;
     lexicalCast_u32 := d_lexicalCast; lexicalCast_u64 := d_lexicalCast;
     throws_bad_lexical_cast := true;
     asUInt := fun j => match j with JNum z => Z.to_N z | _ => 0%N end;
     asBool := fun j => match j with JBool b => b | _ => false end;
     asString := fun j => match j with JString s => s | _ => EmptyString end;
     parseSLE := d_parseSLE |}.

(** Ledger 6 and its child, ledger 7, whose three transactions sit in
    the map in the order of their ids and carry the in-ledger indexes 3,
    1 and 2. *)
Definition ledger6 : DLedger :=
  {| d_seq := 6; d_hash := 600; d_parentHash := 500; d_accountHash := 66;
     d_closeTime := 60; d_closeFlags := 0; d_closed := true;
     d_state := [(1%N, "AccountRoot")]; d_txs := [];
     d_walkable := true; d_sane := true |}.

Definition ledger7 : DLedger :=
  {| d_seq := 7; d_hash := 700; d_parentHash := 600; d_accountHash := 77;
     d_closeTime := 70; d_closeFlags := 1; d_closed := true;
     d_state := [(1%N, "AccountRoot")];
     d_txs := [(10%N, ("pay", 3%N)); (11%N, ("offer", 1%N));
               (12%N, ("trust", 2%N))];
     d_walkable := true; d_sane := true |}.

(** Ledger 8 has lost nodes. *)
Definition ledger8 : DLedger :=
  {| d_seq := 8; d_hash := 800; d_parentHash := 700; d_accountHash := 88;
     d_closeTime := 80; d_closeFlags := 0; d_closed := true;
     d_state := []; d_txs := []; d_walkable := false; d_sane := true |}.

Definition entry (index type : string) : Json :=
  JObject [("index", JString index); ("LedgerEntryType", JString type)].

(** Four files: a wrapped export whose second entry has no index, a
    bare array, an object that is neither, and an export whose coin
    total is no number. *)
Definition files (content : string) : option Json :=
  if String.eqb content "export.json" then
    Some (JObject [("result", JObject [("ledger", JObject
      [("total_coins", JString "100");
       ("accountState",
        JArray [entry "0A" "AccountRoot";
                JObject [("LedgerEntryType", JString "Offer")];
                entry "0B" "RippleState"])])])])
  else if String.eqb content "array.json" then
    Some (JArray [entry "0C" "AccountRoot"])
  else if String.eqb content "other.json" then
    Some (JObject [("ledger_index", JNum 5)])
  else if String.eqb content "coins.json" then
    Some (JObject [("total_coins", JString "lots");
                   ("accountState", JArray [entry "0D" "AccountRoot"])])
  else None.

(** The index reports ledger 7 as the highest one, under the hash
    [stored]. *)
Definition demo (ndebug : bool) (stored : uint256) : Externals :=
  node ndebug [ledger6; ledger7; ledger8] (Val (Some ledger7, 7%N, stored))
    files.

End Demo.

(* ===================================================================== *)
(** ** Runs of the timers and of the job queue                            *)
(* ===================================================================== *)

Module SweepRuns.
Import Sweep.

(** What can happen to the application between start and stop, as far
    as the sweep is concerned: a timer fires, at a moment when the file
    system has [available] bytes free, or the job queue runs a job. *)
Inductive Action :=
| Fire (timer : Timer) (available : N)
| RunJob.

(** The application as [boost::filesystem::space] answers now. *)
Definition withSpace (available : N) (a : App) : App :=
  {| space_available := available;
     siSweepInterval := siSweepInterval a;
     jobQueue := jobQueue a;
     sweepTimer := sweepTimer a;
     trace := trace a |}.

Definition act (a : App) (x : Action) : App :=
  match x with
  | Fire timer available => onDeadlineTimer timer (withSpace available a)
  | RunJob => runJob a
  end.

Definition runs (xs : list Action) (a : App) : App := fold_left act xs a.

Definition count {A} (p : A -> bool) (l : list A) : nat :=
  List.length (filter p l).

Definition isFire (timer : Timer) (x : Action) : bool :=
  match x with Fire t _ => Timer_eqb t timer | RunJob => false end.

(** A firing of the sweep timer that finds less than the floor free. *)
Definition isLowFire (x : Action) : bool :=
  match x with
  | Fire t available => Timer_eqb t m_sweepTimer && (available <? floor)%N
  | RunJob => false
  end.

Definition Cache_eqb (a b : Cache) : bool :=
  match a, b with
  | fullbelow, fullbelow | MasterTransaction, MasterTransaction
  | NodeStore, NodeStore | LedgerMaster, LedgerMaster
  | TempNodeCache, TempNodeCache | Validations, Validations
  | InboundLedgers, InboundLedgers
  | acceptedLedgerCache, acceptedLedgerCache
  | treecache, treecache | cachedSLEs, cachedSLEs => true
  | _, _ => false
  end.

Definition isSweepOf (c : Cache) (e : Event) : bool :=
  match e with EvSweep c' => Cache_eqb c' c | _ => false end.

Definition isSetExpiration (e : Event) : bool :=
  match e with EvSetExpiration _ => true | _ => false end.

Definition isAddEntropy (e : Event) : bool :=
  match e with EvAddEntropy => true | _ => false end.

Definition isFatal (e : Event) : bool :=
  match e with EvFatal _ => true | _ => false end.

End SweepRuns.

(* ===================================================================== *)
(** ** What the recovery loop has attempted                               *)
(* ===================================================================== *)

Module Recovery.
Import MissingNode.

(** The sequence numbers the loop has tried to acquire, oldest first. *)
Fixpoint attempted (l : list Event) : list seq_t :=
  match l with
  | [] => []
  | EvAttempt s :: l' => s :: attempted l'
  | _ :: l' => attempted l'
  end.

(** The events that follow the first end of a loop. *)
Fixpoint afterExit (l : list Event) : option (list Event) :=
  match l with
  | [] => None
  | EvExit _ :: l' => Some l'
  | _ :: l' => afterExit l'
  end.

Definition isNotify (e : Event) : bool :=
  match e with EvNotify _ => true | _ => false end.

(** What the attempts made so far have to do with a call. *)
Definition ahead (f : Family) (c : Call) : Prop :=
  match c with
  | Acquiring s => Forall (fun a => (a < s)%N) (attempted (log f))
  | Relocking s => Forall (fun a => (a <= s)%N) (attempted (log f))
  | _ => True
  end.

(** What holds of a family that was only ever notified of non-zero
    sequence numbers, beyond [Inv]. *)
Definition Ordered (f : Family) : Prop :=
  Inv f /\
  StronglySorted N.lt (attempted (log f)) /\
  (maxSeq f = 0%N -> attempted (log f) = []) /\
  (forall post, afterExit (log f) = Some post ->
     activeLoops f = 0%nat /\ maxSeq f <> 0%N /\
     Forall (fun e => isNotify e = true) post) /\
  (forall c, In c (calls f) -> ahead f c).

(** What holds of a family, whatever it is notified of: the remembered
    target is the largest notification, what is acquired is the hash of
    what is attempted, and what is attempted has been notified. *)
Definition Sourced (getHashBySeq : seq_t -> uint256) (f : Family) : Prop :=
  maxSeq f = maxOf (notified (log f)) /\
  (forall h s, In (EvAcquire h s) (log f) ->
     h = getHashBySeq s /\ h <> 0%N /\ In (EvAttempt s) (log f)) /\
  (forall s, In (EvAttempt s) (log f) -> In s (notified (log f))) /\
  (forall c, In c (calls f) ->
     match c with
     | Acquiring s | Relocking s => In s (notified (log f))
     | _ => True
     end).

(** [void missing_node (uint256 const& hash)]: the acquisitions it
    requests, as [(hash, seq)]; the family is not touched. *)
Definition missing_node_hash (hash : uint256) : list (uint256 * seq_t) :=
  if negb (hash =? 0)%N then [(hash, 0%N)] else [].

End Recovery.



(* ===================================================================== *)
(** ** A node whose replayed ledger has lost a transaction                *)
(* ===================================================================== *)

Module Lossy.
Import Bootstrap.

(** The node [E], except that the transaction map of every ledger lists
    one more key, [extra], at its end. *)
Definition withExtraTx (E : Externals) (extra : uint256) : Externals :=
  {| Ledger := @Ledger E; STTx := @STTx E; TxMeta := @TxMeta E;
     STObject := @STObject E;
     NDEBUG := @NDEBUG E;
     info_seq := @info_seq E; info_parentHash := @info_parentHash E;
     info_accountHash := @info_accountHash E;
     info_closeTime := @info_closeTime E;
     info_closeFlags := @info_closeFlags E; getHash := @getHash E;
     addJson := @addJson E;
     setClosed := @setClosed E; setImmutable := @setImmutable E;
     setValidated := @setValidated E;
     walkLedger := @walkLedger E; assertSane := @assertSane E;
     txMap := fun l => @txMap E l ++ [extra];
     txRead := @txRead E;
     sfTransactionIndex := @sfTransactionIndex E;
     newLedger := @newLedger E;
     setTotalDrops := @setTotalDrops E;
     setTotalDropsVBC := @setTotalDropsVBC E;
     addSLE := @addSLE E; flushDirty := @flushDirty E;
     setAccepted := @setAccepted E;
     loadLedgerHelper := @loadLedgerHelper E;
     loadByHash := @loadByHash E; loadByIndex := @loadByIndex E;
     haveLedger := @haveLedger E;
     checkLocal := @checkLocal E; il_getLedger := @il_getLedger E;
     closeTime_parse := @closeTime_parse E;
     closeTime_open := @closeTime_open E;
     openFile := @openFile E; readerParse := @readerParse E;
     SetHex := @SetHex E;
     lexicalCast_u32 := @lexicalCast_u32 E;
     lexicalCast_u64 := @lexicalCast_u64 E;
     throws_bad_lexical_cast := @throws_bad_lexical_cast E;
     asUInt := @asUInt E; asBool := @asBool E; asString := @asString E;
     parseSLE := @parseSLE E |}.

(** The demo node, where the map of ledger 7 also lists transaction 99,
    which cannot be read. *)
Definition lossy : Externals := withExtraTx (Demo.demo true 700%N) 99%N.

End Lossy.

(* ===================================================================== *)
(** ** Choosing how to start                                              *)
(* ===================================================================== *)

Module Startup.
Import Bootstrap.

(** [Config::START_UP]; [NORMAL] stands for every value the chain of
    comparisons in [setup] does not name. *)
Inductive StartUp :=
| FRESH | DUMP | LOAD | LOAD_FILE | REPLAY | NETWORK | NORMAL.

(** [SHAMapTreeNode::TNType], of which the dump looks for two values. *)
Inductive TNType := tnTRANSACTION_NM | tnTRANSACTION_MD | tnOTHER.

(** What a call made by the dump gives back: a value, or a
    [std::exception]. *)
Inductive dres (A : Type) :=
| DVal (a : A)
| DRaise.
Arguments DVal {A} a.
Arguments DRaise {A}.

(** What [startGenesisLedger] and the start-up branches of [setup] call
    beyond what the loader calls. *)
Class StartupExternals (E : Externals) := {
  create_genesis    : Ledger;               (* Ledger (create_genesis, ..)   *)
  open_ledger       : Ledger -> N -> Ledger; (* Ledger (open_ledger, l, time) *)
  updateSkipList    : Ledger -> Ledger;
  closeTime_genesis : N;                    (* timeKeeper ().closeTime ()    *)
  RUN_STANDALONE    : bool;
  START_LEDGER      : string;
  DUMP_INDEX        : string;
  NodeObject        : Type;
  Node              : Type;
  Item              : Type;
  Blob              : Type;
  fetch             : uint256 -> option NodeObject;   (* family ().db () *)
  make_node         : NodeObject -> uint256 -> dres (option Node);
  isLeaf            : Node -> bool;
  getType           : Node -> TNType;
  peekItem          : Node -> Item;
  parse_slice       : Item -> dres STTx;    (* STTx (SerialIter (item->slice ())) *)
  getVL             : Item -> dres Blob;
  parse_blob        : Blob -> dres STTx
}.

Section Setup.

Context {E : Externals} {S : StartupExternals E}.

(** What [setup] does while it chooses: what the loader records, and
    three calls the loader never makes. *)
Inductive SEvent :=
| Boot (e : Event)
| EvStoreLedger (l : Ledger)      (* m_ledgerMaster->storeLedger (l)      *)
| EvNeedNetworkLedger             (* m_networkOPs->needNetworkLedger ()   *)
| EvCout (tx : STTx).             (* std::cout << txn->getJson (0)        *)

(** How the choice ends: [setup] goes on, the process exits through
    [exitWithCode], a thrown value leaves [setup] (the string the dump
    throws, an exception the loader let through, or one its handlers do
    not name), or an [assert] stops the process. *)
Inductive SOutcome :=
| Continues
| Exits (code : Z)
| Escapes (what : string)
| Thrown (e : exn)
| Unhandled
| Aborts.

(** [void ApplicationImp::startGenesisLedger ()] *)
Definition startGenesisLedger : list SEvent :=
  let genesis := create_genesis in
  let next := open_ledger genesis closeTime_genesis in
  let next := updateSkipList next in
  let next := setClosed next in
  let next := setImmutable next in
  [EvStoreLedger genesis;
   Boot (EvSetLastCloseTime (info_closeTime next));
   Boot (EvOpenLedgerEmplace next);
   Boot (EvSwitchLCL next)].

(** The [try] block of the dump: the transaction to print, if any;
    [inr what] when a [const char*] is thrown, [inl DRaise] when a
    [std::exception] is. *)
Definition dumpDecode (obj : NodeObject) (uNodeIndex : uint256)
  : dres (option STTx) + string :=
  match make_node obj uNodeIndex with
  | DRaise => inl DRaise
  | DVal node =>
      match node with
      | None => inr "No such node"
      | Some node =>
          if negb (isLeaf node) then inr "No such node"
          else
            let item := peekItem node in
            match getType node with
            | tnTRANSACTION_NM =>
                match parse_slice item with
                | DVal txn => inl (DVal (Some txn))
                | DRaise => inl DRaise
                end
            | tnTRANSACTION_MD =>
                match getVL item with
                | DVal blob =>
                    match parse_blob blob with
                    | DVal txn => inl (DVal (Some txn))
                    | DRaise => inl DRaise
                    end
                | DRaise => inl DRaise
                end
            | tnOTHER => inl (DVal None)
            end
      end
  end.

(** The [DUMP] branch: the handler catches [std::exception] only. *)
Definition dump : list SEvent * SOutcome :=
  let uNodeIndex := SetHex DUMP_INDEX in
  match fetch uNodeIndex with
  | None => ([], Exits 0)
  | Some obj =>
      match dumpDecode obj uNodeIndex with
      | inl (DVal (Some txn)) => ([EvCout txn], Exits 0)
      | inl (DVal None) => ([], Exits 0)
      | inl DRaise => ([Boot (EvLog lsWarning "Invalid DB node ")], Exits 0)
      | inr what => ([], Escapes what)
      end
  end.

Definition isReplay (s : StartUp) : bool :=
  match s with REPLAY => true | _ => false end.

Definition isLoadFile (s : StartUp) : bool :=
  match s with LOAD_FILE => true | _ => false end.

(** The branch for [LOAD], [LOAD_FILE] and [REPLAY]. *)
Definition load (startUp : StartUp) : list SEvent * SOutcome :=
  let '(evs, o) :=
    loadOldLedger START_LEDGER (isReplay startUp) (isLoadFile startUp) in
  (Boot (EvLog lsInfo "Loading specified Ledger") :: map Boot evs,
   match o with
   | Ret true => Continues
   | Ret false => Exits (-1)
   | Throw e => Thrown e
   | Abort => Aborts
   | Uncaught => Unhandled
   end).

(** The chain of comparisons on [startUp] in [setup]. *)
Definition bootstrap (startUp : StartUp) : list SEvent * SOutcome :=
  match startUp with
  | FRESH =>
      (Boot (EvLog lsInfo "Starting new Ledger") :: startGenesisLedger,
       Continues)
  | DUMP => dump
  | LOAD | LOAD_FILE | REPLAY => load startUp
  | NETWORK =>
      ((if negb RUN_STANDALONE then [EvNeedNetworkLedger] else [])
       ++ startGenesisLedger, Continues)
  | NORMAL => (startGenesisLedger, Continues)
  end.

(** The ledgers switched to and the ledgers the open view was built
    on, in order. *)
Definition switched (evs : list SEvent) : list Ledger :=
  flat_map (fun e => match e with Boot (EvSwitchLCL l) => [l] | _ => [] end)
    evs.

Definition emplaced (evs : list SEvent) : list Ledger :=
  flat_map (fun e => match e with
                     | Boot (EvOpenLedgerEmplace l) => [l]
                     | _ => []
                     end) evs.


Definition isLoadMode (s : StartUp) : bool :=
  match s with LOAD | LOAD_FILE | REPLAY => true | _ => false end.

(** The same for the events of the loader. *)
Definition switchedL (evs : list Event) : list Ledger :=
  flat_map (fun e => match e with EvSwitchLCL l => [l] | _ => [] end) evs.

Definition emplacedL (evs : list Event) : list Ledger :=
  flat_map (fun e => match e with EvOpenLedgerEmplace l => [l] | _ => [] end)
    evs.

End Setup.

(** The demo node started in a given mode: it is asked for the ledger
    [startLedger] or for the node [dumpIndex].  Node objects are
    numbers: object 1 makes no node, object 2 cannot be decoded, node 3
    is an inner node, 4 and 5 are transaction leaves of the two kinds,
    any other is a leaf of another kind. *)
Definition demoStartup (standalone : bool) (startLedger dumpIndex : string)
  : StartupExternals (Demo.demo true 700%N) :=
  {| create_genesis := Demo.d_newLedger 1 0 : @Ledger (Demo.demo true 700%N);
     open_ledger := fun l t =>
       {| Demo.d_seq := Demo.d_seq l + 1; Demo.d_hash := Demo.d_hash l + 1;
          Demo.d_parentHash := Demo.d_hash l;
          Demo.d_accountHash := Demo.d_accountHash l;
          Demo.d_closeTime := t; Demo.d_closeFlags := 0;
          Demo.d_closed := false; Demo.d_state := Demo.d_state l;
          Demo.d_txs := []; Demo.d_walkable := true; Demo.d_sane := true |}%N;
     updateSkipList := fun l => l;
     closeTime_genesis := 3000%N;
     RUN_STANDALONE := standalone;
     START_LEDGER := startLedger;
     DUMP_INDEX := dumpIndex;
     NodeObject := N; Node := N; Item := string; Blob := string;
     fetch := fun h => if (h =? 0)%N then None else Some h;
     make_node := fun obj _ =>
       if (obj =? 1)%N then DVal None
       else if (obj =? 2)%N then DRaise else DVal (Some obj);
     isLeaf := fun n => negb (n =? 3)%N;
     getType := fun n =>
       if (n =? 4)%N then tnTRANSACTION_NM
       else if (n =? 5)%N then tnTRANSACTION_MD else tnOTHER;
     peekItem := fun n => "payment";
     parse_slice := fun i => DVal (i : @STTx (Demo.demo true 700%N));
     getVL := fun i => DVal i;
     parse_blob := fun b => DVal (b : @STTx (Demo.demo true 700%N)) |}.

End Startup.

(* ===================================================================== *)
(** ** Opening the databases                                              *)
(* ===================================================================== *)

Module Databases.

Inductive DbType := Sqlite | MySQL | NoDb.

Inductive InitTable :=
| TxnDBInit | TxnDBInitMySQL | LedgerDBInit | WalletDBInit.

(** A [DatabaseCon] as [initSqliteDbs] constructs it: its type, the file
    name or connection string, and the statements it is initialised
    with.  The constructor that takes a file name opens an sqlite
    database. *)
Record DatabaseCon := {
  dbType   : DbType;
  dbTarget : string;
  dbInit   : InitTable
}.

(** A section of the configuration, as its keys and values. *)
Definition Section_ := list (string * string).

Fixpoint find_key (key : string) (s : Section_) : option string :=
  match s with
  | [] => None
  | (k, v) :: s' => if String.eqb key k then Some v else find_key key s'
  end.

(** Modelled from the spec: [get<std::string> (section, key)], which
    gives the empty string for a key the section does not have. *)
Definition get (s : Section_) (key : string) : string :=
  match find_key key s with Some v => v | None => EmptyString end.

(** The pointers [mTxnDB], [mLedgerDB] and [mWalletDB]; [None] is
    null. *)
Record Dbs := {
  mTxnDB    : option DatabaseCon;
  mLedgerDB : option DatabaseCon;
  mWalletDB : option DatabaseCon
}.

Definition isNull {A} (p : option A) : bool :=
  match p with None => true | Some _ => false end.

(** [boost::format ("host=%s port=%s db=%s user=%s password='%s'")] *)
Definition connectionString (params : Section_) : string :=
  "host=" ++ get params "host" ++ " port=" ++ get params "port" ++
  " db=" ++ get params "database" ++ " user=" ++ get params "username" ++
  " password='" ++ get params "password" ++ "'".

(** [bool initSqliteDbs ()], given whether [assert] is compiled out and
    the section [transaction_db]; [None] when an [assert] stops the
    process. *)
Definition initSqliteDbs (ndebug : bool) (trasactionDatabse : Section_)
    (dbs : Dbs) : option (bool * Dbs) :=
  if negb ndebug
     && negb (isNull (mTxnDB dbs) && isNull (mLedgerDB dbs)
              && isNull (mWalletDB dbs))
  then None
  else
    let type := get trasactionDatabse "type" in
    let mTxnDB' :=
      if (String.length type =? 0)%nat || String.eqb type "sqlite" then
        Some {| dbType := Sqlite; dbTarget := "transaction.db";
                dbInit := TxnDBInit |}
      else if String.eqb type "mysql" then
        Some {| dbType := MySQL;
                dbTarget := connectionString trasactionDatabse;
                dbInit := TxnDBInitMySQL |}
      else if String.eqb type "none" then
        Some {| dbType := NoDb; dbTarget := EmptyString;
                dbInit := TxnDBInit |}
      else mTxnDB dbs in
    let mLedgerDB' :=
      Some {| dbType := Sqlite; dbTarget := "ledger.db";
              dbInit := LedgerDBInit |} in
    let mWalletDB' :=
      Some {| dbType := Sqlite; dbTarget := "wallet.db";
              dbInit := WalletDBInit |} in
    Some (negb (isNull mTxnDB') && negb (isNull mLedgerDB')
          && negb (isNull mWalletDB'),
          {| mTxnDB := mTxnDB'; mLedgerDB := mLedgerDB';
             mWalletDB := mWalletDB' |}).

(** How the step of [setup] that opens the databases ends. *)
Inductive Opened :=
| Open (dbs : Dbs)
| ExitWithCode (code : Z) (fatal : string)
| AssertFailed.

(** [if (!initSqliteDbs ()) { fatal; exitWithCode (3); }] *)
Definition openDatabases (ndebug : bool) (trasactionDatabse : Section_)
    (dbs : Dbs) : Opened :=
  match initSqliteDbs ndebug trasactionDatabse dbs with
  | None => AssertFailed
  | Some (true, dbs') => Open dbs'
  | Some (false, _) =>
      ExitWithCode 3 "Can not create database connections!"
  end.

Definition closed : Dbs :=
  {| mTxnDB := None; mLedgerDB := None; mWalletDB := None |}.

(** The types [initSqliteDbs] knows. *)
Definition knownType (type : string) : Prop :=
  type = EmptyString \/ type = "sqlite" \/ type = "mysql" \/ type = "none".

End Databases.

(* ===================================================================== *)
(** ** The latency sampler                                                *)
(* ===================================================================== *)

Module Sampler.

Inductive Event :=
| EvNotify (ms : Z)         (* m_event.notify (ms)                     *)
| EvWarning (ms : Z).       (* m_journal.warning << "io_service latency" *)

(** [io_latency_sampler]: [m_lastSample], which the constructor leaves
    uninitialised ([None]), and what it has reported, oldest first. *)
Record sampler := {
  m_lastSample : option Z;
  reported     : list Event
}.

Definition fresh : sampler := {| m_lastSample := None; reported := [] |}.

Section Probe.

(** A [Duration], and [ceil <std::chrono::milliseconds>] of it. *)
Variable Duration : Type.
Variable ceil_ms : Duration -> Z.

(** [operator() (Duration const& elapsed)] *)
Definition sample (s : sampler) (elapsed : Duration) : sampler :=
  let ms := ceil_ms elapsed in
  {| m_lastSample := Some ms;
     reported := reported s
       ++ (if (10 <=? ms)%Z then [EvNotify ms] else [])
       ++ (if (500 <=? ms)%Z then [EvWarning ms] else []) |}.

(** [get ()]; [None] is the value of a member that was never written. *)
Definition get (s : sampler) : option Z := m_lastSample s.

Definition samples (l : list Duration) (s : sampler) : sampler :=
  fold_left sample l s.

End Probe.

Definition notifications (l : list Event) : list Z :=
  flat_map (fun e => match e with EvNotify ms => [ms] | _ => [] end) l.

Definition warnings (l : list Event) : list Z :=
  flat_map (fun e => match e with EvWarning ms => [ms] | _ => [] end) l.

End Sampler.

(* ===================================================================== *)
(** ** Running until asked to stop                                        *)
(* ===================================================================== *)

Module Lifecycle.

(** The [error_code] a signal is delivered with. *)
Inductive error_code :=
| success
| operation_aborted
| failure (message : string).

Inductive Event :=
| EvError (msg : string)         (* m_journal.error << "Received signal: " *)
| EvDebug (msg : string)         (* m_journal.debug << "Received signal: " *)
| EvInfo (msg : string)
| EvSignalStop                   (* signalStop (): m_stop.signal ()       *)
| EvPrepare                      (* prepare ()                            *)
| EvStart                        (* start ()                              *)
| EvActivateDeadlockDetector
| EvStop                         (* stop (m_journal)                      *)
| EvStopSustain.

(** Where the thread that called [run] is. *)
Inductive Main := NotRunning | Waiting | Finished.

(** Modelled from the spec: [m_stop], the "wait primitive" [run] blocks
    on "until [signalStop ()]"; it is signalled or not, and a wait that
    returns takes the signal. *)
Record App := {
  RUN_STANDALONE : bool;
  m_stop         : bool;
  main           : Main;
  trace          : list Event
}.

Definition emit (evs : list Event) (a : App) : App :=
  {| RUN_STANDALONE := RUN_STANDALONE a; m_stop := m_stop a;
     main := main a; trace := trace a ++ evs |}.

(** [void ApplicationImp::signalStop ()] *)
Definition signalStop (a : App) : App :=
  {| RUN_STANDALONE := RUN_STANDALONE a; m_stop := true;
     main := main a; trace := trace a ++ [EvSignalStop] |}.

(** [void signalled (error_code const& ec, int signal_number)] *)
Definition signalled (ec : error_code) (a : App) : App :=
  match ec with
  | operation_aborted => a
  | failure _ => emit [EvError "Received signal: "] a
  | success => signalStop (emit [EvDebug "Received signal: "] a)
  end.

(** [void ApplicationImp::run ()], one stretch at a time: up to
    [m_stop.wait ()], and from its return to the end. *)
Definition runStep (a : App) : App :=
  match main a with
  | NotRunning =>
      {| RUN_STANDALONE := RUN_STANDALONE a; m_stop := m_stop a;
         main := Waiting;
         trace := trace a ++ [EvPrepare; EvStart]
                  ++ (if negb (RUN_STANDALONE a)
                      then [EvActivateDeadlockDetector] else []) |}
  | Waiting =>
      if m_stop a then
        {| RUN_STANDALONE := RUN_STANDALONE a; m_stop := false;
           main := Finished;
           trace := trace a ++ [EvInfo "Received shutdown request"; EvStop;
                                EvInfo "Done."; EvStopSustain] |}
      else a
  | Finished => a
  end.

(** What happens to the application: the main thread runs on, a signal
    is delivered, or something else calls [signalStop] (the sweep timer
    does when the disk is full). *)
Inductive Action :=
| Run
| Deliver (ec : error_code)
| Stop.

Definition act (a : App) (x : Action) : App :=
  match x with
  | Run => runStep a
  | Deliver ec => signalled ec a
  | Stop => signalStop a
  end.

Definition runs (xs : list Action) (a : App) : App := fold_left act xs a.

Definition start (standalone : bool) : App :=
  {| RUN_STANDALONE := standalone; m_stop := false; main := NotRunning;
     trace := [] |}.

Definition isStop (e : Event) : bool :=
  match e with EvStop => true | _ => false end.

Definition isSignalStop (e : Event) : bool :=
  match e with EvSignalStop => true | _ => false end.

Definition stops (x : Action) : bool :=
  match x with Deliver success | Stop => true | _ => false end.

(** The events up to the first [stop]. *)
Fixpoint beforeStop (l : list Event) : option (list Event) :=
  match l with
  | [] => None
  | EvStop :: _ => Some []
  | e :: l' =>
      match beforeStop l' with
      | Some pre => Some (e :: pre)
      | None => None
      end
  end.

(** What holds of the application however it got where it is. *)
Definition Inv (a : App) : Prop :=
  (main a = NotRunning -> SweepRuns.count isStop (trace a) = 0%nat) /\
  (main a = Waiting -> SweepRuns.count isStop (trace a) = 0%nat) /\
  (main a = Finished -> SweepRuns.count isStop (trace a) = 1%nat) /\
  (m_stop a = true -> In EvSignalStop (trace a)) /\
  (forall pre, beforeStop (trace a) = Some pre -> In EvSignalStop pre) /\
  (SweepRuns.count isStop (trace a) = 0%nat -> beforeStop (trace a) = None).

End Lifecycle.

(* ===================================================================== *)
(** ** Looking at a table's schema                                        *)
(* ===================================================================== *)

Module Schema.

(** [std::string::find (content)], from position 0; [None] is [npos]. *)
Definition find (s content : string) : option nat := String.index 0 content s.

(** [static_cast<int>] of a [std::size_t]. *)
Definition static_cast_int (n : Z) : Z :=
  ((n + 2147483648) mod 4294967296 - 2147483648)%Z.

(** The conversion of an [int] to [std::size_t], for [operator[]]. *)
Definition to_size_t (i : Z) : Z := (i mod 18446744073709551616)%Z.

Inductive result :=
| Returns (b : bool)
| Throws (fatal what : string)    (* the line logged, and the exception *)
| Undefined.                      (* an index past the end of the vector *)

Section Database.

(** The database: for a table name, the rows
    [SELECT sql FROM sqlite_master WHERE tbl_name='...'] fetches. *)
Variable dbc : string -> list string.

(** [getSchema (dbc, dbName)] *)
Definition getSchema (dbName : string) : list string := dbc dbName.

(** [schemaHas (dbc, dbName, line, content, j)] *)
Definition schemaHas (dbName : string) (line : Z) (content : string)
    : result :=
  let schema := getSchema dbName in
  if (static_cast_int (Z.of_nat (List.length schema)) <=? line)%Z then
    Throws ("Schema for " ++ dbName ++ " has too few lines") "bad schema"
  else
    match nth_error schema (Z.to_nat (to_size_t line)) with
    | Some row =>
        Returns (match find row content with Some _ => true | None => false end)
    | None => Undefined
    end.

End Database.

(** [content] occurs in [row]. *)
Definition occurs (content row : string) : Prop :=
  exists pre post, row = (pre ++ content ++ post)%string.

End Schema.

(* ===================================================================== *)
(** * Properties                                                          *)
(* ===================================================================== *)

Module ServerOkayFacts.
Import ServerOkay.

(** The reason is written only by a failing check. *)
Lemma serverOkay_true_keeps_or_caughtUp (a : App) (reason : string) :
  fst (serverOkay a reason) = true ->
  snd (serverOkay a reason) = reason \/
  snd (serverOkay a reason) = snd (isCaughtUp a reason).
Proof.
  unfold serverOkay.
  destruct (ELB_SUPPORT a), (isShutdown a), (isNeedNetworkLedger a),
    (getOperatingMode a <? omSYNCING a)%Z,
    (isCaughtUp a reason) as [[] r], (isLoadedLocal a),
    (isAmendmentBlocked a); simpl; intros H; try discriminate H; auto.
Qed.

(** C8, as the code has it.  With [ELB_SUPPORT] enabled, [serverOkay]
    runs six checks in this order: not shut down, not waiting for a
    network ledger, operating mode not below [omSYNCING], caught up,
    not loaded, not amendment blocked.  It answers [false] with the
    reason of the first check that fails and [true] when all pass.  The
    application is an argument that the function only reads. *)
Theorem serverOkay_first_failing_check (a : App) (reason : string) :
  ELB_SUPPORT a = true ->
  (isShutdown a = true ->
     serverOkay a reason = (false, "Server is shutting down")) /\
  (isShutdown a = false -> isNeedNetworkLedger a = true ->
     serverOkay a reason = (false, "Not synchronized with network yet")) /\
  (isShutdown a = false -> isNeedNetworkLedger a = false ->
   (getOperatingMode a < omSYNCING a)%Z ->
     serverOkay a reason = (false, "Not synchronized with network")) /\
  (isShutdown a = false -> isNeedNetworkLedger a = false ->
   (omSYNCING a <= getOperatingMode a)%Z ->
   fst (isCaughtUp a reason) = false ->
     serverOkay a reason = (false, snd (isCaughtUp a reason))) /\
  (isShutdown a = false -> isNeedNetworkLedger a = false ->
   (omSYNCING a <= getOperatingMode a)%Z ->
   fst (isCaughtUp a reason) = true -> isLoadedLocal a = true ->
     serverOkay a reason = (false, "Too much load")) /\
  (isShutdown a = false -> isNeedNetworkLedger a = false ->
   (omSYNCING a <= getOperatingMode a)%Z ->
   fst (isCaughtUp a reason) = true -> isLoadedLocal a = false ->
   isAmendmentBlocked a = true ->
     serverOkay a reason = (false, "Server version too old")) /\
  (isShutdown a = false -> isNeedNetworkLedger a = false ->
   (omSYNCING a <= getOperatingMode a)%Z ->
   fst (isCaughtUp a reason) = true -> isLoadedLocal a = false ->
   isAmendmentBlocked a = false ->
     serverOkay a reason = (true, snd (isCaughtUp a reason))).
Proof.
  intros Helb. unfold serverOkay. rewrite Helb. simpl.
  repeat split; intros.
  all: repeat match goal with
       | H : ?x = _ |- context [if ?x then _ else _] => rewrite H
       | H : (_ < _)%Z |- _ => apply Z.ltb_lt in H
       | H : (_ <= _)%Z |- _ => apply Z.ltb_ge in H
       end; try reflexivity.
  all: destruct (isCaughtUp a reason) as [c r]; simpl in *; subst c;
       simpl;
       repeat match goal with
       | H : ?x = _ |- context [if ?x then _ else _] => rewrite H
       end; reflexivity.
Qed.

(** The server on which everything is wrong answers with the first
    reason; the healthy one answers [true]. *)
Lemma serverOkay_first_failing_check_witness :
  ELB_SUPPORT (sick true) = true /\
  serverOkay (sick true) "unset" = (false, "Server is shutting down") /\
  serverOkay healthy "unset" = (true, "unset").
Proof.
  split; [reflexivity|]. split.
  - apply (proj1 (serverOkay_first_failing_check (sick true) "unset"
                    eq_refl)); reflexivity.
  - pose proof (serverOkay_first_failing_check healthy "unset" eq_refl)
      as (_ & _ & _ & _ & _ & _ & H).
    apply H; try reflexivity; simpl; lia.
Defined.

(** C8 as it is worded does not hold: with [ELB_SUPPORT] off a server
    that is shutting down is reported healthy and no reason is given. *)
Lemma serverOkay_shutdown_reported_healthy :
  isShutdown (sick false) = true /\
  serverOkay (sick false) "unset" = (true, "unset").
Proof. split; reflexivity. Qed.

(** C9.  With [ELB_SUPPORT] disabled [serverOkay] answers [true] and
    leaves the reason string as it found it, whatever the state of the
    server. *)
Theorem serverOkay_disabled (a : App) (reason : string) :
  ELB_SUPPORT a = false ->
  serverOkay a reason = (true, reason).
Proof. intros H. unfold serverOkay. rewrite H. reflexivity. Qed.

Lemma serverOkay_disabled_witness :
  ELB_SUPPORT (sick false) = false /\
  isShutdown (sick false) = true /\
  isAmendmentBlocked (sick false) = true /\
  serverOkay (sick false) "unset" = (true, "unset").
Proof.
  split; [reflexivity|]. split; [reflexivity|]. split; [reflexivity|].
  apply (serverOkay_disabled (sick false) "unset"). reflexivity.
Defined.

End ServerOkayFacts.

Module SweepFacts.
Import Sweep.

Lemma trace_sweeps (l : list Cache) (a : App) :
  trace (fold_left (fun a c => emit (EvSweep c) a) l a)
  = trace a ++ map EvSweep l.
Proof.
  revert a. induction l as [|c l IH]; intros a; simpl.
  - now rewrite app_nil_r.
  - rewrite IH. simpl. now rewrite <- app_assoc.
Qed.

Lemma fields_sweeps (l : list Cache) (a : App) :
  let a' := fold_left (fun a c => emit (EvSweep c) a) l a in
  siSweepInterval a' = siSweepInterval a /\ jobQueue a' = jobQueue a /\
  sweepTimer a' = sweepTimer a /\ space_available a' = space_available a.
Proof.
  revert a. induction l as [|c l IH]; intros a; simpl.
  - auto.
  - destruct (IH (emit (EvSweep c) a)) as (H1 & H2 & H3 & H4).
    simpl in *. auto.
Qed.

(** What one pass of [doSweep] does. *)
Lemma doSweep_trace (a : App) :
  trace (doSweep a)
  = trace a ++ map EvSweep sweepOrder ++ [EvSetExpiration (siSweepInterval a)].
Proof.
  unfold doSweep, setExpiration. cbn [trace emit].
  rewrite trace_sweeps.
  destruct (fields_sweeps sweepOrder a) as (-> & _).
  now rewrite <- app_assoc.
Qed.

(** C1, as the code has it.  When the sweep timer fires the controller
    submits exactly one sweep job whatever the free space is; below the
    512 MiB floor it first logs the fatal condition and calls
    [signalStop ()], at or above the floor it does neither.  The timer
    callback itself runs no eviction step. *)
Theorem sweep_timer_submits_one_pass (a : App) :
  let a' := onDeadlineTimer m_sweepTimer a in
  jobQueue a' = jobQueue a ++ [SweepJob] /\
  trace a' =
    trace a ++
    (if (space_available a <? 512 * 1024 * 1024)%N
     then [EvFatal "Remaining free disk space is less than 512MB";
           EvSignalStop]
     else []) ++
    [EvAddJob SweepJob] /\
  filter isSweep (trace a') = filter isSweep (trace a).
Proof.
  unfold onDeadlineTimer. simpl Timer_eqb. cbv iota.
  change floor with (512 * 1024 * 1024)%N.
  destruct (space_available a <? 512 * 1024 * 1024)%N; simpl;
    repeat split; rewrite <- ?app_assoc; simpl; try reflexivity.
  all: rewrite !filter_app; simpl; now rewrite ?app_nil_r.
Qed.

(** C1 as it is worded does not hold: with 511 MiB free the fatal line
    is logged and [signalStop ()] is called, and the sweep job is
    submitted all the same; when the job queue runs it, the ten
    eviction steps run. *)
Lemma sweep_submitted_below_floor :
  (space_available (fired 511) <? floor)%N = true /\
  trace (onDeadlineTimer m_sweepTimer (fired 511)) =
    [EvFatal "Remaining free disk space is less than 512MB";
     EvSignalStop; EvAddJob SweepJob] /\
  jobQueue (onDeadlineTimer m_sweepTimer (fired 511)) = [SweepJob] /\
  filter isSweep (trace (runJob (onDeadlineTimer m_sweepTimer (fired 511))))
    = map EvSweep sweepOrder.
Proof. repeat split. Qed.

(** C2, as the code has it.  The timer callback never re-arms the sweep
    timer: it leaves the timer as it is and records no [setExpiration].
    The re-arm with the configured interval is the last call of the
    pass body [doSweep], after all ten eviction steps. *)
Theorem sweep_timer_rearmed_at_end_of_pass (timer : Timer) (a : App) :
  sweepTimer (onDeadlineTimer timer a) = sweepTimer a /\
  (forall secs, In (EvSetExpiration secs) (trace (onDeadlineTimer timer a)) ->
                In (EvSetExpiration secs) (trace a)) /\
  trace (doSweep a) =
    trace a ++ map EvSweep sweepOrder ++
    [EvSetExpiration (siSweepInterval a)] /\
  sweepTimer (doSweep a) = Some (siSweepInterval a).
Proof.
  split; [|split; [|split]].
  - unfold onDeadlineTimer.
    destruct timer; simpl; try reflexivity.
    destruct (space_available a <? floor)%N; reflexivity.
  - intros secs. unfold onDeadlineTimer.
    destruct timer; simpl; auto.
    + rewrite in_app_iff. simpl. intros [H|[H|[]]]; [assumption|discriminate].
    + destruct (space_available a <? floor)%N; simpl;
        rewrite ?in_app_iff; simpl; intuition discriminate.
  - apply doSweep_trace.
  - reflexivity.
Qed.

(** C2 as it is worded does not hold: after the callback has submitted
    the pass the timer is still unarmed, and in the run of the job the
    re-arm comes after the ten eviction steps. *)
Lemma sweep_rearm_follows_evictions :
  sweepTimer (onDeadlineTimer m_sweepTimer (fired 513)) = None /\
  trace (runJob (onDeadlineTimer m_sweepTimer (fired 513))) =
    [EvAddJob SweepJob] ++ map EvSweep sweepOrder ++ [EvSetExpiration 60].
Proof. split; reflexivity. Qed.

End SweepFacts.

Module MissingNodeFacts.
Import MissingNode.

Lemma nth_error_set_nth {A} (l : list A) (i : nat) (c c' : A) :
  nth_error l i = Some c -> nth_error (set_nth i c' l) i = Some c'.
Proof.
  revert i. induction l as [|x l IH]; intros [|i] H; simpl in *;
    try discriminate; auto.
Qed.

Lemma In_set_nth {A} (l : list A) (i : nat) (c' x : A) :
  In x (set_nth i c' l) -> x = c' \/ In x l.
Proof.
  revert i. induction l as [|y l IH]; intros [|i]; simpl; auto.
  - intros [H|H]; auto.
  - intros [H|H]; auto. destruct (IH _ H); auto.
Qed.

Lemma loops_set_nth (l : list Call) (i : nat) (c c' : Call) :
  nth_error l i = Some c ->
  (List.length (filter inLoop (set_nth i c' l)) + Nat.b2n (inLoop c)
   = List.length (filter inLoop l) + Nat.b2n (inLoop c'))%nat.
Proof.
  revert i. induction l as [|x l IH]; intros [|i] H; simpl in *;
    try discriminate.
  - injection H as ->. destruct (inLoop c), (inLoop c'); simpl; lia.
  - specialize (IH _ H). destruct (inLoop x); simpl; lia.
Qed.

Lemma notified_app (l1 l2 : list Event) :
  notified (l1 ++ l2) = notified l1 ++ notified l2.
Proof.
  induction l1 as [|e l1 IH]; simpl; auto.
  destruct e; simpl; now rewrite ?IH.
Qed.

Lemma maxOf_app (l1 l2 : list seq_t) :
  maxOf (l1 ++ l2) = N.max (maxOf l1) (maxOf l2).
Proof.
  induction l1 as [|x l1 IH]; simpl.
  - now rewrite N.max_0_l.
  - rewrite IH. now rewrite N.max_assoc.
Qed.

Lemma maxOf_upper (l : list seq_t) (s : seq_t) :
  In s l -> (s <= maxOf l)%N.
Proof.
  induction l as [|x l IH]; simpl; [tauto|].
  intros [->|H]; [|specialize (IH H)]; lia.
Qed.

Section Handler.

Variable getHashBySeq : seq_t -> uint256.

Local Abbreviation step := (step getHashBySeq).
Local Abbreviation run := (run getHashBySeq).
Local Abbreviation advance := (advance getHashBySeq).



Lemma Inv_init (seqs : list seq_t) :
  Forall (fun s => s <> 0%N) seqs -> Inv (init seqs).
Proof.
  intros Hnz. unfold Inv, init, activeLoops. cbn [maxSeq calls log].
  assert (Hl : filter inLoop (map Called seqs) = []).
  { clear. induction seqs; simpl; auto. }
  rewrite Hl. simpl. repeat split; auto.
  intros c Hc. apply in_map_iff in Hc as (s & <- & Hs).
  simpl. rewrite Forall_forall in Hnz. auto.
Qed.

(** [maxSeq] is the largest sequence number notified so far, whatever
    the notifications are. *)
Lemma step_maxSeq (i : nat) (f : Family) :
  maxSeq f = maxOf (notified (log f)) ->
  maxSeq (step i f) = maxOf (notified (log (step i f))).
Proof.
  intros H. unfold step.
  destruct (nth_error (calls f) i) as [c|]; [|assumption].
  destruct c as [s|s|s|]; simpl.
  - destruct (N.eqb_spec (maxSeq f) 0) as [E|E];
      [|destruct (N.ltb_spec (maxSeq f) s)]; simpl;
      rewrite notified_app, maxOf_app; simpl; rewrite <- H; lia.
  - destruct (getHashBySeq s =? 0)%N; simpl;
      rewrite notified_app, maxOf_app; simpl; rewrite <- H; lia.
  - destruct (N.eqb_spec (maxSeq f) s); simpl;
      rewrite notified_app, maxOf_app; simpl; rewrite <- H; lia.
  - rewrite app_nil_r. assumption.
Qed.

(** The remembered target never decreases. *)
Lemma step_monotone (i : nat) (f : Family) :
  (maxSeq f <= maxSeq (step i f))%N.
Proof.
  unfold step.
  destruct (nth_error (calls f) i) as [c|]; [|lia].
  destruct c as [s|s|s|]; simpl; try lia.
  - destruct (N.eqb_spec (maxSeq f) 0) as [E|E];
      [|destruct (N.ltb_spec (maxSeq f) s)]; simpl; lia.
  - destruct (N.eqb_spec (maxSeq f) s); simpl; lia.
Qed.

Lemma log_grows (i : nat) (f : Family) (e : Event) :
  In e (log f) -> In e (log (step i f)).
Proof.
  unfold step.
  destruct (nth_error (calls f) i) as [c|]; [|auto].
  destruct (advance (maxSeq f) c) as [[m c'] evs]. simpl.
  intros H. apply in_app_iff. auto.
Qed.

Lemma callOk_step (i : nat) (f : Family) (c : Call) :
  callOk f c -> callOk (step i f) c.
Proof.
  pose proof (step_monotone i f) as Hm.
  destruct c as [s|s|s|]; simpl; auto.
  - intros [? ?]. split; [assumption|lia].
  - intros (? & ? & ?). repeat split; [assumption|lia|].
    now apply log_grows.
Qed.

Lemma step_Inv (i : nat) (f : Family) : Inv f -> Inv (step i f).
Proof.
  intros (Hmax & Hidle & Hone & Hok).
  split; [now apply step_maxSeq|].
  assert (Hcalls : forall c, In c (calls f) -> callOk (step i f) c)
    by (intros c Hc; apply callOk_step; auto).
  revert Hcalls. unfold step, activeLoops in *.
  destruct (nth_error (calls f) i) as [c|] eqn:Hi;
    [|intros _; repeat split; assumption].
  pose proof (Hok c (nth_error_In _ _ Hi)) as Hc.
  pose proof (fun c' => loops_set_nth (calls f) i c c' Hi) as Hcount.
  destruct c as [s|s|s|]; simpl in Hc |- *.
  - (* the entry region *)
    destruct (N.eqb_spec (maxSeq f) 0) as [E|E];
      [|destruct (N.ltb_spec (maxSeq f) s)]; cbn [maxSeq calls log];
      intros Hcalls.
    + specialize (Hcount (Acquiring s)). specialize (Hidle E).
      simpl in Hcount. repeat split; try lia.
      intros c Hin. apply In_set_nth in Hin as [->|Hin]; auto.
      simpl. split; [assumption|lia].
    + specialize (Hcount Returned). simpl in Hcount.
      repeat split; try lia.
      intros c Hin. apply In_set_nth in Hin as [->|Hin]; simpl; auto.
    + specialize (Hcount Returned). simpl in Hcount.
      repeat split; try lia.
      intros c Hin. apply In_set_nth in Hin as [->|Hin]; simpl; auto.
  - (* the attempt *)
    specialize (Hcount (Relocking s)). simpl in Hcount.
    cbn [maxSeq calls log]. intros Hcalls.
    repeat split; try lia; auto.
    intros c Hin. apply In_set_nth in Hin as [->|Hin]; auto.
    simpl. destruct Hc as [? ?]. repeat split; auto.
    apply in_app_iff. right.
    destruct (getHashBySeq s =? 0)%N; simpl; auto.
  - (* the loop test *)
    destruct Hc as (Hs & Hle & Hin).
    destruct (N.eqb_spec (maxSeq f) s) as [E|E]; cbn [negb maxSeq calls log];
      intros Hcalls.
    + specialize (Hcount Returned). simpl in Hcount.
      repeat split; try lia.
      intros c Hc0. apply In_set_nth in Hc0 as [->|Hc0]; simpl; auto.
    + specialize (Hcount (Acquiring (maxSeq f))). simpl in Hcount.
      repeat split; try lia.
      intros c Hc0. apply In_set_nth in Hc0 as [->|Hc0]; auto.
      simpl. split; lia.
  - (* a call that is over does nothing *)
    specialize (Hcount Returned). simpl in Hcount.
    cbn [maxSeq calls log]. intros Hcalls.
    repeat split; try lia; auto.
    intros c Hc0. apply In_set_nth in Hc0 as [->|Hc0]; simpl; auto.
Qed.

Lemma run_Inv (schedule : list nat) (f : Family) :
  Inv f -> Inv (run schedule f).
Proof.
  revert f. induction schedule as [|i schedule IH]; intros f H; simpl; auto.
  apply IH. now apply step_Inv.
Qed.

End Handler.

(** A run used below: [missing_node (5)] starts the loop, [9] arrives
    during its first attempt and [7] during its second. *)
Example coalesced_run :
  log (run (fun s => s + 1000)%N [0; 1; 0; 0; 2; 0; 0]%nat (init [5; 9; 7]%N))
  = [EvNotify 5; EvNotify 9; EvAttempt 5; EvAcquire 1005 5; EvNotify 7;
     EvAttempt 9; EvAcquire 1009 9; EvExit 9]%N.
Proof. reflexivity. Qed.

(** Nothing sets [maxSeq] back to 0 when the loop ends: a notification
    that arrives afterwards raises the remembered target and returns,
    and no attempt is made for it. *)
Example notification_after_exit :
  let f := run (fun s => s + 1000)%N [0; 0; 0; 1; 1]%nat (init [5; 9]%N) in
  maxSeq f = 9%N /\
  calls f = [Returned; Returned] /\
  log f = [EvNotify 5; EvAttempt 5; EvAcquire 1005 5; EvExit 5;
           EvNotify 9]%N.
Proof. repeat split. Qed.

(** C3, as the code has it.  [maxSeq = 0] is the idle mark, so the
    property is about notifications with non-zero sequence numbers.  In
    every state that any interleaving of such notifications reaches:
    - at most one recovery loop is active;
    - no step lowers the remembered target;
    - a notification that arrives while a loop is active ends in that
      one step, having only raised the remembered target to the maximum
      of its old value and the new sequence number;
    - a loop that has finished an attempt for [s] goes round again, for
      the remembered target, when that target is no longer [s], and
      ends only when it still is [s]; then [s] is the largest sequence
      number notified so far and has been attempted. *)
Theorem missing_node_single_loop (getHashBySeq : seq_t -> uint256)
    (seqs : list seq_t) (schedule : list nat) :
  Forall (fun s => s <> 0%N) seqs ->
  let f := run getHashBySeq schedule (init seqs) in
  (activeLoops f <= 1)%nat /\
  (forall i, (maxSeq f <= maxSeq (step getHashBySeq i f))%N) /\
  (forall i s, activeLoops f = 1%nat ->
     nth_error (calls f) i = Some (Called s) ->
     step getHashBySeq i f =
       {| maxSeq := N.max (maxSeq f) s;
          calls := set_nth i Returned (calls f);
          log := log f ++ [EvNotify s] |}) /\
  (forall i s, nth_error (calls f) i = Some (Relocking s) ->
     (maxSeq f <> s ->
        nth_error (calls (step getHashBySeq i f)) i
        = Some (Acquiring (maxSeq f))) /\
     (maxSeq f = s ->
        nth_error (calls (step getHashBySeq i f)) i = Some Returned /\
        s = maxOf (notified (log f)) /\
        In (EvAttempt s) (log f))).
Proof.
  intros Hnz f.
  assert (HI : Inv f) by (apply run_Inv, Inv_init, Hnz).
  destruct HI as (Hmax & Hidle & Hone & Hok).
  split; [assumption|]. split; [intros i; apply step_monotone|]. split.
  - intros i s Hact Hi. unfold step. rewrite Hi. simpl.
    destruct (N.eqb_spec (maxSeq f) 0) as [E|E].
    + specialize (Hidle E). lia.
    + destruct (N.ltb_spec (maxSeq f) s); f_equal; lia.
  - intros i s Hi.
    pose proof (Hok _ (nth_error_In _ _ Hi)) as (Hs & Hle & Hin).
    unfold step. rewrite Hi. simpl. split; intros Hm.
    + destruct (N.eqb_spec (maxSeq f) s) as [E|E]; [contradiction|].
      simpl. eapply nth_error_set_nth; eassumption.
    + destruct (N.eqb_spec (maxSeq f) s) as [E|E]; [|contradiction].
      simpl. split; [eapply nth_error_set_nth; eassumption|].
      split; [congruence|assumption].
Qed.

Lemma missing_node_single_loop_witness :
  Forall (fun s => s <> 0%N) [5; 9; 7]%N /\
  (activeLoops (run (fun s => s + 1000)%N [0; 1; 0; 0; 2; 0]%nat
                  (init [5; 9; 7]%N)) <= 1)%nat.
Proof.
  split.
  - repeat constructor; discriminate.
  - apply (missing_node_single_loop (fun s => s + 1000)%N [5; 9; 7]%N
             [0; 1; 0; 0; 2; 0]%nat).
    repeat constructor; discriminate.
Defined.

(** C3 as it is worded does not hold for every notification: after
    [missing_node (0)] has entered the loop [maxSeq] is still the idle
    mark, so [missing_node (5)] enters a second loop beside it. *)
Lemma two_loops_after_zero :
  activeLoops (run (fun s => s + 1000)%N [0; 1]%nat (init [0; 5]%N)) = 2%nat /\
  calls (run (fun s => s + 1000)%N [0; 1]%nat (init [0; 5]%N))
  = [Acquiring 0; Acquiring 5]%N.
Proof. split; reflexivity. Qed.

End MissingNodeFacts.

Module BootstrapFacts.
Import Bootstrap.

(** *** Events of a computation *)

Section Events.

Context {E : Externals}.



Section Every.

Variable P : Event -> Prop.

Lemma every_ret {A} (a : A) : every P (ret a).
Proof. constructor. Qed.

Lemma every_emit (e : Event) : P e -> every P (emit e).
Proof. intros H. repeat constructor. exact H. Qed.

Lemma every_log (sev : Severity) (msg : string) :
  P (EvLog sev msg) -> every P (log sev msg).
Proof. apply every_emit. Qed.

Lemma every_lift {A} (r : res A) : every P (lift r).
Proof. destruct r; constructor. Qed.

Lemma every_throw {A} (e : exn) : every P (([], Throw e) : M A).
Proof. constructor. Qed.

Lemma every_assert_false : every P assert_false.
Proof. unfold assert_false. destruct NDEBUG; constructor. Qed.

Lemma every_castFailure {A} : every P (castFailure : M A).
Proof. constructor. Qed.

Lemma every_bind {A B} (m : M A) (k : A -> M B) :
  every P m -> (forall a, every P (k a)) -> every P (bind m k).
Proof.
  unfold every, bind. destruct m as [evs [a|e| |]]; simpl; auto.
  intros Hm Hk. specialize (Hk a). destruct (k a) as [evs' o]. simpl in *.
  apply Forall_app. auto.
Qed.

Lemma every_try_catch {A} (m : M A) (h : exn -> M A) :
  every P m -> (forall e, every P (h e)) -> every P (try_catch m h).
Proof.
  unfold every, try_catch. destruct m as [evs [a|e| |]]; simpl; auto.
  intros Hm Hh. specialize (Hh e). destruct (h e) as [evs' o]. simpl in *.
  apply Forall_app. auto.
Qed.

Lemma every_foldM {A B} (f : B -> A -> M B) (l : list A) (b : B) :
  (forall b a, every P (f b a)) -> every P (foldM f l b).
Proof.
  intros Hf. revert b. induction l as [|a l IH]; intros b; simpl.
  - apply every_ret.
  - apply every_bind; auto.
Qed.

End Every.

End Events.

(** Splits a computation along its binds and branches, leaving the
    events to be checked. *)
Ltac every_step :=
  match goal with
  | |- every _ (bind _ _) => apply every_bind; [|intros ?]
  | |- every _ (try_catch _ _) => apply every_try_catch; [|intros ?]
  | |- every _ (ret _) => apply every_ret
  | |- every _ (lift _) => apply every_lift
  | |- every _ assert_false => apply every_assert_false
  | |- every _ castFailure => apply every_castFailure
  | |- every _ (log _ _) => apply every_log
  | |- every _ (emit _) => apply every_emit
  | |- every _ (foldM _ _ _) => apply every_foldM; intros ? ?
  | |- every _ ([], Throw _) => apply every_throw
  | |- every _ (let '(_, _) := ?p in _) => destruct p
  | |- every _ (match ?x with _ => _ end) => destruct x
  end.

Ltac every_auto := repeat every_step.

Section Gate.

Context {E : Externals}.


Lemma quiet_getLastFullLedger : quiet getLastFullLedger.
Proof. unfold quiet, getLastFullLedger. every_auto; reflexivity. Qed.

Lemma quiet_addEntry (l : Ledger) (entry : Json) : quiet (addEntry l entry).
Proof. unfold quiet, addEntry. every_auto; reflexivity. Qed.

Lemma quiet_ledgerFromJson (j : Json) : quiet (ledgerFromJson j).
Proof.
  unfold quiet, ledgerFromJson, readHeader, buildLedger,
    lexicalCastThrow_u64.
  every_auto; try reflexivity.
  apply quiet_addEntry.
Qed.

Lemma quiet_findLedger (ledgerID : string) (isFileName : bool) :
  quiet (findLedger ledgerID isFileName).
Proof.
  unfold findLedger, loadFromFile, fromBackEnd, lexicalCastThrow_u32.
  destruct isFileName.
  - destruct (openFile ledgerID) as [f|];
      [destruct (readerParse f) as [j|]|];
      [apply quiet_ledgerFromJson| |]; unfold quiet; every_auto; reflexivity.
  - destruct (_ || _); [apply quiet_getLastFullLedger|].
    unfold quiet. every_auto; reflexivity.
Qed.

Lemma quiet_selectLedger (ledgerID : string) (replay isFileName : bool) :
  quiet (selectLedger ledgerID replay isFileName).
Proof.
  unfold selectLedger, findParent, fromBackEnd.
  apply every_bind; [apply quiet_findLedger|intros l].
  unfold quiet. every_auto; reflexivity.
Qed.

(** *** The validation gate *)


Lemma quiet_gated {A} (m : M A) : quiet m -> every gated m.
Proof.
  unfold quiet, every. apply Forall_impl.
  intros [] H; simpl in *; auto; discriminate.
Qed.

Lemma gated_buildReplay (r : Ledger) : every gated (buildReplay r).
Proof. unfold buildReplay, replayTx. every_auto; exact I. Qed.



(** A ledger that fails a check is refused before anything is
    installed. *)
Lemma validateAndInstall_rejects (l : Ledger) (r : option Ledger) :
  passesGate (setClosed l) = false ->
  exists msg,
    validateAndInstall l r =
      ([EvLog lsInfo "Loading ledger "; EvLog lsFatal msg],
       if NDEBUG then Ret false else Abort).
Proof.
  unfold passesGate, validateAndInstall, assert_false.
  destruct (info_accountHash (setClosed l) =? 0)%N;
    [|destruct (walkLedger (setClosed l));
      [destruct (assertSane (setClosed l))|]]; simpl;
    try discriminate; intros _; destruct NDEBUG; simpl; eauto.
Qed.

Lemma gated_validateAndInstall (l : Ledger) (r : option Ledger) :
  every gated (validateAndInstall l r).
Proof.
  destruct (passesGate (setClosed l)) eqn:Hg.
  - unfold validateAndInstall. pose proof Hg as Hg'. unfold passesGate in Hg'.
    destruct (info_accountHash (setClosed l) =? 0)%N; [discriminate|].
    destruct (walkLedger (setClosed l)); [|discriminate].
    destruct (assertSane (setClosed l)); [|discriminate]. simpl negb.
    cbv iota.
    every_auto; try exact I; try exact Hg.
    apply gated_buildReplay.
  - destruct (validateAndInstall_rejects l r Hg) as [msg ->].
    repeat constructor.
Qed.

Lemma gated_loadOldLedger (ledgerID : string) (replay isFileName : bool) :
  every gated (loadOldLedger ledgerID replay isFileName).
Proof.
  unfold loadOldLedger.
  apply every_try_catch.
  - apply every_bind; [apply quiet_gated, quiet_selectLedger|].
    intros [[l r]|]; [apply gated_validateAndInstall|apply every_ret].
  - intros []; every_auto; exact I.
Qed.


End Gate.



(** *** Loading the latest ledger *)

Section Latest.

Context {E : Externals}.

(** C5.  [getLastFullLedger] takes the highest-sequence ledger of the
    persisted index together with the hash stored for it, closes it,
    makes it immutable and compares the hash of the loaded ledger with
    the stored one.  When they agree the ledger is returned.  When they
    differ, two error lines are written ("Failed on ledger" and the
    dump of the ledger) and nothing is installed; how it ends depends
    on the build.  Where [assert] is compiled out the ledger is
    dropped: [getLastFullLedger] gives the null pointer and a load of
    "latest" (or of the empty identifier) returns [false].  Where
    [assert] is compiled in, the process stops at the [assert (false)]
    in front of the return: neither function returns. *)
Theorem latest_hash_verified
    (ledger : Ledger) (ledgerSeq : N) (ledgerHash : uint256) :
  loadLedgerHelper = Val (Some ledger, ledgerSeq, ledgerHash) ->
  let loaded :=
    if haveLedger ledgerSeq
    then setValidated (setImmutable (setClosed ledger))
    else setImmutable (setClosed ledger) in
  (getHash loaded = ledgerHash ->
     getLastFullLedger
       = ([EvLog lsTrace "Loaded ledger: "], Ret (Some loaded))) /\
  (getHash loaded <> ledgerHash ->
     getLastFullLedger
       = ([EvLog lsError "Failed on ledger"; EvLog lsError (addJson loaded)],
          if NDEBUG then Ret None else Abort) /\
     forall ledgerID replay,
       ledgerID = EmptyString \/ ledgerID = "latest" ->
       snd (loadOldLedger ledgerID replay false)
         = (if NDEBUG then Ret false else Abort) /\
       Forall (fun e => isInstall e = false)
         (fst (loadOldLedger ledgerID replay false))).
Proof.
  intros Hrow loaded.
  assert (Hget : getLastFullLedger =
    if (getHash loaded =? ledgerHash)%N
    then ([EvLog lsTrace "Loaded ledger: "], Ret (Some loaded))
    else ([EvLog lsError "Failed on ledger"; EvLog lsError (addJson loaded)],
          if NDEBUG then Ret None else Abort)).
  { unfold getLastFullLedger, assert_false. rewrite Hrow. simpl.
    fold loaded. destruct (getHash loaded =? ledgerHash)%N; simpl;
      [reflexivity|]. destruct NDEBUG; reflexivity. }
  split; intros Hh.
  - rewrite Hget. apply N.eqb_eq in Hh. now rewrite Hh.
  - apply N.eqb_neq in Hh. rewrite Hh in Hget. split; [assumption|].
    intros ledgerID replay Hid.
    unfold loadOldLedger, selectLedger, findLedger.
    assert (Hc : ((String.length ledgerID =? 0)%nat
                  || String.eqb ledgerID "latest") = true)
      by (destruct Hid as [->| ->]; reflexivity).
    rewrite Hc, Hget.
    destruct NDEBUG; simpl; split; try reflexivity; repeat constructor.
Qed.

End Latest.

(** The demo node whose index stores hash 701 for ledger 7, whose own
    hash is 700. *)
Lemma latest_hash_verified_witness :
  loadLedgerHelper (Externals := Demo.demo true 701%N)
    = Val (Some Demo.ledger7, 7%N, 701%N) /\
  getHash (Externals := Demo.demo true 701%N)
    (setImmutable (Externals := Demo.demo true 701%N)
       (setClosed (Externals := Demo.demo true 701%N) Demo.ledger7))
    <> 701%N /\
  getLastFullLedger (E := Demo.demo true 701%N)
    = ([EvLog lsError "Failed on ledger"; EvLog lsError "{ledger}"],
       Ret None) /\
  snd (loadOldLedger (E := Demo.demo true 701%N) "latest" false false)
    = Ret false.
Proof.
  split; [reflexivity|]. split; [discriminate|].
  pose proof (proj2 (latest_hash_verified (E := Demo.demo true 701%N)
                       Demo.ledger7 7%N 701%N eq_refl)) as H.
  destruct H as [Hget Hload]; [discriminate|].
  split; [exact Hget|].
  exact (proj1 (Hload "latest" false (or_intror eq_refl))).
Defined.

(** The same node where [assert] is compiled in: on the mismatch
    [getLastFullLedger] does not give the null pointer and the load does
    not report failure; the process stops. *)
Lemma latest_mismatch_aborts_under_assert :
  loadLedgerHelper (Externals := Demo.demo false 701%N)
    = Val (Some Demo.ledger7, 7%N, 701%N) /\
  getHash (Externals := Demo.demo false 701%N)
    (setImmutable (Externals := Demo.demo false 701%N)
       (setClosed (Externals := Demo.demo false 701%N) Demo.ledger7))
    = 700%N /\
  getLastFullLedger (E := Demo.demo false 701%N)
    = ([EvLog lsError "Failed on ledger"; EvLog lsError "{ledger}"],
       Abort) /\
  snd (getLastFullLedger (E := Demo.demo false 701%N)) <> Ret None /\
  loadOldLedger (E := Demo.demo false 701%N) "latest" false false
    = ([EvLog lsError "Failed on ledger"; EvLog lsError "{ledger}"],
       Abort) /\
  snd (loadOldLedger (E := Demo.demo false 701%N) "latest" false false)
    <> Ret false.
Proof.
  split; [reflexivity|]. split; [reflexivity|]. split; [reflexivity|].
  split; [discriminate|]. split; [reflexivity|]. discriminate.
Qed.

(** *** Replay *)






Example emplace_3_1_2 :
  emplace 2 "c" (emplace 1 "b" (emplace 3 "a" [])) =
  [(1%N, "b"); (2%N, "c"); (3%N, "a")].
Proof. reflexivity. Qed.

Section Replay.

Context {E : Externals}.

Lemma bind_Ret {A B} (m : M A) (k : A -> M B) (evs : list Event) (b : B) :
  bind m k = (evs, Ret b) ->
  exists evs1 a evs2,
    m = (evs1, Ret a) /\ k a = (evs2, Ret b) /\ evs = evs1 ++ evs2.
Proof.
  unfold bind. destruct m as [evs1 [a|e| |]]; try discriminate.
  destruct (k a) as [evs2 o] eqn:Hk. intros H. inversion H; subst.
  exists evs1, a, evs2. auto.
Qed.




(** What a successful pass through the gate has done. *)
Lemma validateAndInstall_accepts (l : Ledger) (r : option Ledger)
    (evs : list Event) :
  validateAndInstall l r = (evs, Ret true) ->
  exists evr,
    match r with Some replayLedger => buildReplay replayLedger
            | None => ret tt end = (evr, Ret tt) /\
    evs =
      [EvLog lsInfo "Loading ledger ";
       EvSetLedgerRangePresent (info_seq (setClosed l)) (info_seq (setClosed l));
       EvMakeOpenLedger (setClosed l) closeTime_open;
       EvSwitchLCL (setClosed l);
       EvForceValid (setClosed l);
       EvSetLastCloseTime (info_closeTime (setClosed l));
       EvOpenLedgerEmplace (setClosed l)] ++ evr.
Proof.
  destruct (passesGate (setClosed l)) eqn:Hg.
  - unfold validateAndInstall. unfold passesGate in Hg.
    destruct (info_accountHash (setClosed l) =? 0)%N; [discriminate|].
    destruct (walkLedger (setClosed l)); [|discriminate].
    destruct (assertSane (setClosed l)); [|discriminate].
    simpl.
    destruct (match r with Some replayLedger => buildReplay replayLedger
                      | None => ret tt end) as [evr [[]|e| |]];
      simpl; intros H; inversion H; subst.
    exists evr. rewrite app_nil_r. auto.
  - destruct (validateAndInstall_rejects l r Hg) as [msg ->].
    destruct NDEBUG; discriminate.
Qed.


End Replay.

(** The demo node replays ledger 7, whose transactions carry the
    indexes 3, 1 and 2: the package lists them as 1, 2, 3. *)
Example replay_3_1_2 :
  flat_map (fun e => match e with
                     | EvTakeReplay r => [txns_ r]
                     | _ => []
                     end)
    (fst (loadOldLedger (E := Demo.demo true 700%N) "7" true false))
  = [[(1%N, "offer"); (2%N, "trust"); (3%N, "pay")]] /\
  filter (fun e => match e with
                   | EvForceValidity _ _ | EvTakeReplay _ => true
                   | _ => false
                   end)
    (fst (loadOldLedger (E := Demo.demo true 700%N) "7" true false))
  = [EvForceValidity 10%N SigGoodOnly; EvForceValidity 11%N SigGoodOnly;
     EvForceValidity 12%N SigGoodOnly;
     EvTakeReplay
       (@Build_LedgerReplay (Demo.demo true 700%N) Demo.ledger7 70 1
          [(1%N, "offer"); (2%N, "trust"); (3%N, "pay")])].
Proof. split; reflexivity. Qed.


(** *** Loading from a file *)

Section File.

Context {E : Externals}.



(** An entry that does not parse or whose index is zero is passed over
    with one warning. *)
Lemma addEntry_skips (l : Ledger) (entry : Json) :
  entryValid entry = false ->
  addEntry l entry = ([EvLog lsWarning "Invalid entry in ledger"], Ret l).
Proof.
  unfold entryValid, addEntry.
  destruct (parseSLE (removeMember "index" entry)); [|reflexivity].
  intros ->. reflexivity.
Qed.




Lemma validateAndInstall_passes (l : Ledger) :
  passesGate (setClosed l) = true ->
  validateAndInstall l None =
    ([EvLog lsInfo "Loading ledger ";
      EvSetLedgerRangePresent (info_seq (setClosed l)) (info_seq (setClosed l));
      EvMakeOpenLedger (setClosed l) closeTime_open;
      EvSwitchLCL (setClosed l);
      EvForceValid (setClosed l);
      EvSetLastCloseTime (info_closeTime (setClosed l));
      EvOpenLedgerEmplace (setClosed l)], Ret true).
Proof.
  unfold passesGate, validateAndInstall.
  destruct (info_accountHash (setClosed l) =? 0)%N; [discriminate|].
  destruct (walkLedger (setClosed l)); [|discriminate].
  destruct (assertSane (setClosed l)); [|discriminate].
  reflexivity.
Qed.



End File.

(** The export of the demo node has three state nodes, the second
    without an index: the load succeeds, warns once and installs the
    ledger that holds the other two. *)
Example export_with_bad_entry :
  snd (loadOldLedger (E := Demo.demo true 700%N) "export.json" false true)
    = Ret true /\
  filter isSkip
    (fst (loadOldLedger (E := Demo.demo true 700%N) "export.json" false true))
    = [EvLog lsWarning "Invalid entry in ledger"] /\
  flat_map (fun e : @Event (Demo.demo true 700%N) =>
              match e with
                     | EvSwitchLCL l => [Demo.d_state l]
                     | _ => []
                     end)
    (fst (loadOldLedger (E := Demo.demo true 700%N) "export.json" false true))
    = [[(10%N, "AccountRoot"); (11%N, "RippleState")]].
Proof. repeat split. Qed.


Section Array.

Context {E : Externals}.

(** An entry the loop keeps is handed to [addSLE]; at most a warning
    that it could not be added is written. *)
Lemma addEntry_added (l : Ledger) (entry : Json) :
  entryValid entry = true ->
  exists evs,
    addEntry l entry = (evs, Ret (added l entry)) /\
    Forall (fun e => isLog e = true) evs /\
    filter isSkip evs = [].
Proof.
  unfold entryValid, addEntry, added.
  destruct (parseSLE (removeMember "index" entry)) as [o|]; [|discriminate].
  intros ->. simpl.
  destruct (addSLE o _ l) as [l' [|]]; simpl; eexists;
    (split; [reflexivity|]); split; repeat constructor.
Qed.

(** The loop over the state nodes hands the entries it keeps to
    [addSLE], in order, and writes nothing but warnings. *)
Lemma entries_added (entries : list Json) (l : Ledger) :
  exists evs,
    foldM addEntry entries l
      = (evs, Ret (fold_left added (filter entryValid entries) l)) /\
    Forall (fun e => isLog e = true) evs /\
    List.length (filter isSkip evs)
    = List.length (filter (fun e => negb (entryValid e)) entries).
Proof.
  revert l. induction entries as [|entry entries IH]; intros l; simpl.
  - exists []. repeat split. constructor.
  - destruct (entryValid entry) eqn:Hv; simpl.
    + destruct (addEntry_added l entry Hv) as (evs1 & -> & Hl1 & Hq).
      destruct (IH (added l entry)) as (evs2 & Hfold & Hl2 & Hn).
      exists (evs1 ++ evs2). cbn [bind]. rewrite Hfold.
      split; [reflexivity|]. split; [now apply Forall_app|].
      rewrite filter_app, Hq. exact Hn.
    + rewrite (addEntry_skips l entry Hv).
      destruct (IH l) as (evs2 & Hfold & Hl2 & Hn).
      exists (EvLog lsWarning "Invalid entry in ledger" :: evs2).
      cbn [bind]. rewrite Hfold. simpl.
      split; [reflexivity|]. split; [constructor; auto|]. now rewrite Hn.
Qed.

(** When the value that should hold the state nodes is not an array the
    file gives no ledger: the refusal is logged, unless the document is
    a full export one of whose coin totals is no number, where the cast
    throws first. *)
Lemma ledgerFromJson_not_array (jLedger : Json) :
  isArray (stateNodes jLedger) = false ->
  ledgerFromJson jLedger
    = ([EvLog lsFatal "State nodes must be an array"], Ret None) \/
  isMember "accountState" (unwrap jLedger) = true /\
  ledgerFromJson jLedger = castFailure.
Proof.
  unfold stateNodes, ledgerFromJson, readHeader, lexicalCastThrow_u64.
  destruct (isMember "accountState" (unwrap jLedger)).
  - intros Hna. unfold castFailure.
    destruct (isMember "total_coins" (unwrap jLedger));
      [destruct (lexicalCast_u64 _)|];
      (destruct (isMember "total_coinsVBC" (unwrap jLedger));
       [destruct (lexicalCast_u64 _)|]); simpl; rewrite ?Hna; simpl; auto;
      right; (split; [reflexivity|]);
      destruct throws_bad_lexical_cast; reflexivity.
  - intros Hna. simpl. rewrite Hna. simpl. auto.
Qed.

(** C10.  In the file branch, a document that (once unwrapped) is a
    JSON array is taken as the array of ledger entries, and every
    header value is at its default: the ledger is constructed with
    sequence 1 and the close time read from the time keeper when the
    file is loaded, both coin totals are set to 0, the entries the loop
    keeps are added in order (nothing but warnings is written, one
    "Invalid entry" for each entry passed over), and the ledger is
    accepted with that close time, resolution 30 and a close time that
    is not estimated.  A document without "accountState" that is not an
    array is refused: "State nodes must be an array" and "No Ledger
    found" are logged and [loadOldLedger] returns [false].  Whenever
    the value to be used as the entry array is not an array, the file
    yields no ledger, no ledger is constructed, nothing but log lines
    is written, and the attempt fails: [loadOldLedger] returns [false],
    or - only for a full export one of whose coin totals is no number,
    and only when what the failed cast throws is not a
    [boost::bad_lexical_cast] - the exception leaves it. *)
Theorem file_state_nodes_must_be_array (jLedger : Json) :
  (forall entries,
     unwrap jLedger = JArray entries ->
     exists evs,
       ledgerFromJson jLedger =
         (EvNewLedger 1 closeTime_parse :: evs,
          Ret (Some
                 (setAccepted closeTime_parse 30 true
                    (flushDirty
                       (setClosed
                          (fold_left added (filter entryValid entries)
                             (setTotalDropsVBC 0
                                (setTotalDrops 0
                                   (newLedger 1 closeTime_parse))))))))) /\
       Forall (fun e => isLog e = true) evs /\
       List.length (filter isSkip evs)
       = List.length (filter (fun e => negb (entryValid e)) entries)) /\
  (isMember "accountState" (unwrap jLedger) = false ->
   isArray (unwrap jLedger) = false ->
   ledgerFromJson jLedger
     = ([EvLog lsFatal "State nodes must be an array"], Ret None) /\
   forall path content replay,
     openFile path = Some content ->
     readerParse content = Some jLedger ->
     loadOldLedger path replay true
       = ([EvLog lsFatal "State nodes must be an array";
           EvLog lsFatal "No Ledger found from ledgerID="], Ret false)) /\
  (isArray (stateNodes jLedger) = false ->
   (forall l, snd (ledgerFromJson jLedger) <> Ret (Some l)) /\
   Forall (fun e => isLog e = true) (fst (ledgerFromJson jLedger)) /\
   forall path content replay,
     openFile path = Some content ->
     readerParse content = Some jLedger ->
     Forall (fun e => isLog e = true) (fst (loadOldLedger path replay true)) /\
     (snd (loadOldLedger path replay true) = Ret false \/
      snd (loadOldLedger path replay true) = Uncaught /\
      throws_bad_lexical_cast = false /\
      isMember "accountState" (unwrap jLedger) = true)).
Proof.
  split; [|split].
  - intros entries Hu. unfold ledgerFromJson, readHeader, buildLedger.
    rewrite Hu. cbn [isMember bind ret isArray negb elements_of emit].
    destruct (entries_added entries
                (setTotalDropsVBC (h_totalDropsVBC defaults)
                   (setTotalDrops (h_totalDrops defaults)
                      (newLedger (h_seq defaults) (h_closeTime defaults)))))
      as (evs & Hfold & Hlog & Hn).
    rewrite Hfold. exists evs. cbn.
    rewrite !app_nil_r. auto.
  - intros Hm Hna.
    assert (Hl : ledgerFromJson jLedger
                 = ([EvLog lsFatal "State nodes must be an array"], Ret None)).
    { unfold ledgerFromJson, readHeader. rewrite Hm.
      cbn [bind ret]. rewrite Hna. reflexivity. }
    split; [assumption|].
    intros path content replay Hopen Hparse.
    unfold loadOldLedger, selectLedger, findLedger, loadFromFile.
    rewrite Hopen, Hparse, Hl. reflexivity.
  - intros Hna.
    pose proof (ledgerFromJson_not_array jLedger Hna) as Hl.
    unfold castFailure in Hl.
    split; [destruct Hl as [-> | [_ ->]]; intros l;
            [|destruct throws_bad_lexical_cast]; discriminate|].
    split; [destruct Hl as [-> | [_ ->]]; repeat constructor|].
    intros path content replay Hopen Hparse.
    unfold loadOldLedger, selectLedger, findLedger, loadFromFile.
    rewrite Hopen, Hparse.
    destruct Hl as [-> | [Hm ->]].
    + simpl. split; [repeat constructor|auto].
    + destruct throws_bad_lexical_cast; simpl;
        (split; [repeat constructor|auto]).
Qed.

End Array.

(** Two files of the demo node: one is a bare array and loads with the
    defaults, the other is an object without "accountState" and is
    refused. *)
Example bare_array_and_other :
  flat_map (fun e : @Event (Demo.demo true 700%N) =>
              match e with
              | EvNewLedger seq closeTime => [(seq, closeTime)]
              | _ => []
              end)
    (fst (loadOldLedger (E := Demo.demo true 700%N) "array.json" false true))
  = [(1%N, 1000%N)] /\
  flat_map (fun e : @Event (Demo.demo true 700%N) =>
              match e with
              | EvSwitchLCL l => [Demo.d_state l]
              | _ => []
              end)
    (fst (loadOldLedger (E := Demo.demo true 700%N) "array.json" false true))
  = [[(12%N, "AccountRoot")]] /\
  loadOldLedger (E := Demo.demo true 700%N) "other.json" false true
  = ([EvLog lsFatal "State nodes must be an array";
      EvLog lsFatal "No Ledger found from ledgerID="], Ret false).
Proof. repeat split. Qed.

(** The bare array of the demo node gives a ledger of sequence 1, closed
    at the time keeper's 1000, that holds its one entry; the object
    without "accountState" is refused. *)
Lemma file_state_nodes_must_be_array_witness :
  (exists evs,
     ledgerFromJson (E := Demo.demo true 700%N)
       (JArray [Demo.entry "0C" "AccountRoot"])
     = (EvNewLedger 1 1000 :: evs,
        Ret (Some
               {| Demo.d_seq := 1; Demo.d_hash := 0; Demo.d_parentHash := 0;
                  Demo.d_accountHash := 12; Demo.d_closeTime := 1000;
                  Demo.d_closeFlags := 0; Demo.d_closed := true;
                  Demo.d_state := [(12, "AccountRoot")];
                  Demo.d_txs := []; Demo.d_walkable := true;
                  Demo.d_sane := true |}%N))) /\
  isArray (stateNodes (JObject [("ledger_index", JNum 5)])) = false /\
  loadOldLedger (E := Demo.demo true 700%N) "other.json" false true
  = ([EvLog lsFatal "State nodes must be an array";
      EvLog lsFatal "No Ledger found from ledgerID="], Ret false).
Proof.
  split; [|split; [reflexivity|]].
  - destruct (proj1 (file_state_nodes_must_be_array
                       (E := Demo.demo true 700%N)
                       (JArray [Demo.entry "0C" "AccountRoot"]))
                [Demo.entry "0C" "AccountRoot"] eq_refl)
      as (evs & H & _).
    exists evs. exact H.
  - destruct (proj1 (proj2 (file_state_nodes_must_be_array
                              (E := Demo.demo true 700%N)
                              (JObject [("ledger_index", JNum 5)])))
                eq_refl eq_refl) as [_ H].
    exact (H "other.json" "other.json" false eq_refl eq_refl).
Defined.

End BootstrapFacts.

(* ===================================================================== *)
(** * Further properties                                                  *)
(* ===================================================================== *)

Module SweepRunsFacts.
Import Sweep SweepRuns.

Lemma count_app {A} (p : A -> bool) (l1 l2 : list A) :
  count p (l1 ++ l2) = (count p l1 + count p l2)%nat.
Proof. unfold count. now rewrite filter_app, length_app. Qed.

Lemma count_nil {A} (p : A -> bool) : count p [] = 0%nat.
Proof. reflexivity. Qed.

Lemma count_cons {A} (p : A -> bool) (x : A) (l : list A) :
  count p (x :: l) = (Nat.b2n (p x) + count p l)%nat.
Proof. unfold count. simpl. destruct (p x); reflexivity. Qed.

(** What a timer firing adds to the trace and to the queue. *)
Lemma fire_effect (timer : Timer) (a : App) :
  exists evs,
    trace (onDeadlineTimer timer a) = trace a ++ evs /\
    space_available (onDeadlineTimer timer a) = space_available a /\
    siSweepInterval (onDeadlineTimer timer a) = siSweepInterval a /\
    List.length (jobQueue (onDeadlineTimer timer a))
      = (List.length (jobQueue a)
         + Nat.b2n (Timer_eqb timer m_sweepTimer))%nat /\
    count isAddJob evs = Nat.b2n (Timer_eqb timer m_sweepTimer) /\
    count isAddEntropy evs = Nat.b2n (Timer_eqb timer m_entropyTimer) /\
    count isSetExpiration evs = 0%nat /\
    count isSweep evs = 0%nat /\
    count isSignalStop evs
      = (if (space_available a <? floor)%N
         then Nat.b2n (Timer_eqb timer m_sweepTimer) else 0%nat) /\
    count isFatal evs = count isSignalStop evs.
Proof.
  unfold onDeadlineTimer. destruct timer; simpl.
  - exists [EvAddEntropy]. destruct (space_available a <? floor)%N;
      repeat split; simpl; lia.
  - destruct (space_available a <? floor)%N; simpl.
    + eexists [_; _; _]. rewrite <- !app_assoc. simpl.
      repeat split. rewrite length_app. simpl. lia.
    + eexists [_]. repeat split. rewrite length_app. simpl. lia.
  - exists []. rewrite app_nil_r.
    destruct (space_available a <? floor)%N; repeat split; simpl; lia.
Qed.

Lemma count_sweepOf_order (c : Cache) :
  In c sweepOrder -> count (isSweepOf c) (map EvSweep sweepOrder) = 1%nat.
Proof.
  simpl. intros H.
  repeat (destruct H as [<-|H]; [reflexivity|]). destruct H.
Qed.

(** What running the oldest job adds. *)
Lemma runJob_effect (a : App) :
  exists evs,
    trace (runJob a) = trace a ++ evs /\
    space_available (runJob a) = space_available a /\
    siSweepInterval (runJob a) = siSweepInterval a /\
    (List.length (jobQueue (runJob a)) + count isSetExpiration evs
     = List.length (jobQueue a))%nat /\
    count isAddJob evs = 0%nat /\
    count isAddEntropy evs = 0%nat /\
    count isSignalStop evs = 0%nat /\
    count isFatal evs = 0%nat /\
    (forall c, In c sweepOrder ->
       count (isSweepOf c) evs = count isSetExpiration evs).
Proof.
  unfold runJob. destruct (jobQueue a) as [|[] rest] eqn:Hq.
  - exists []. rewrite app_nil_r, Hq. repeat split.
  - exists (map EvSweep sweepOrder ++ [EvSetExpiration (siSweepInterval a)]).
    split; [rewrite SweepFacts.doSweep_trace; reflexivity|].
    split; [reflexivity|]. split; [reflexivity|].
    split; [unfold count; simpl; lia|].
    repeat split.
    intros c Hc. rewrite !count_app, (count_sweepOf_order c Hc). reflexivity.
Qed.

(** X1. Accounting of the sweep over any run.  Started with nothing
    queued and nothing recorded, after any sequence of job runs and of
    timer firings, each at its own amount of free space: one job has
    been submitted for each firing of the sweep timer and none for any
    other timer; the passes that have run and the jobs still queued add
    up to the firings of the sweep timer; every pass that has run has
    swept each of the ten subsystems exactly once and re-armed the timer
    exactly once; [signalStop] has been called once for each firing of
    the sweep timer that found the free space below the floor and never
    otherwise, each time with one fatal line. *)
Theorem sweep_accounting (space interval : N) (xs : list Action) :
  let a := runs xs {| space_available := space; siSweepInterval := interval;
                      jobQueue := []; sweepTimer := None; trace := [] |} in
  count isAddJob (trace a) = count (isFire m_sweepTimer) xs /\
  count isAddEntropy (trace a) = count (isFire m_entropyTimer) xs /\
  (count isSetExpiration (trace a) + List.length (jobQueue a)
   = count (isFire m_sweepTimer) xs)%nat /\
  (forall c, In c sweepOrder ->
     count (isSweepOf c) (trace a) = count isSetExpiration (trace a)) /\
  count isSignalStop (trace a) = count isLowFire xs /\
  count isFatal (trace a) = count isSignalStop (trace a).
Proof.
  set (a0 := {| space_available := space; siSweepInterval := interval;
                jobQueue := []; sweepTimer := None; trace := [] |}).
  assert (G : forall xs a,
    let a' := runs xs a in
    count isAddJob (trace a')
      = (count isAddJob (trace a) + count (isFire m_sweepTimer) xs)%nat /\
    count isAddEntropy (trace a')
      = (count isAddEntropy (trace a)
         + count (isFire m_entropyTimer) xs)%nat /\
    (count isSetExpiration (trace a') + List.length (jobQueue a')
     = count isSetExpiration (trace a) + List.length (jobQueue a)
       + count (isFire m_sweepTimer) xs)%nat /\
    (forall c, In c sweepOrder ->
       (count (isSweepOf c) (trace a') + count isSetExpiration (trace a)
        = count (isSweepOf c) (trace a)
          + count isSetExpiration (trace a'))%nat) /\
    count isSignalStop (trace a')
      = (count isSignalStop (trace a) + count isLowFire xs)%nat /\
    (count isFatal (trace a') + count isSignalStop (trace a)
     = count isFatal (trace a) + count isSignalStop (trace a'))%nat).
  { clear. induction xs as [|x xs IH]; intros a.
    - simpl. rewrite !count_nil. repeat split; lia.
    - destruct (IH (act a x)) as (Hj & He & Hq & Hc & Hs & Hf).
      simpl. change (fold_left act xs (act a x)) with (runs xs (act a x)).
      rewrite !count_cons.
      destruct x as [timer available|]; simpl act in *;
        simpl isFire; simpl isLowFire.
      + destruct (fire_effect timer (withSpace available a))
          as (evs & Ht & _ & _ & Hlen & E1 & E2 & E3 & E4 & E5 & E6).
        cbn [withSpace trace jobQueue space_available] in Ht, Hlen, E5.
        rewrite Ht, !count_app in *.
        assert (Hsw : forall c, count (isSweepOf c) evs = 0%nat).
        { intros c. clear - E4. unfold count in *.
          induction evs as [|e evs IHe]; simpl in *; auto.
          destruct e; simpl in *; try discriminate; auto. }
        assert (E5' : count isSignalStop evs
                      = Nat.b2n (Timer_eqb timer m_sweepTimer
                                 && (available <? floor)%N)).
        { rewrite E5. destruct (available <? floor)%N,
            (Timer_eqb timer m_sweepTimer); reflexivity. }
        repeat split; try lia.
        intros c Hin. specialize (Hc c Hin).
        rewrite ?count_app, ?(Hsw c), ?E3 in Hc. lia.
      + destruct (runJob_effect a)
          as (evs & Ht & _ & _ & Hlen & E1 & E2 & E3 & E4 & E5).
        rewrite Ht, !count_app in *. simpl Nat.b2n.
        repeat split; try lia.
        intros c Hin. specialize (Hc c Hin). specialize (E5 c Hin).
        rewrite ?count_app in Hc. lia. }
  destruct (G xs a0) as (Hj & He & Hq & Hc & Hs & Hf).
  cbn [a0 space_available jobQueue trace List.length] in *.
  rewrite !count_nil in *.
  repeat split; try assumption; try lia.
  intros c Hin. specialize (Hc c Hin). rewrite !count_nil in Hc. lia.
Qed.

(** The free space falls below the floor between two firings of the
    sweep timer: only the second asks to stop, and both passes run. *)
Example space_crosses_the_floor :
  trace (runs [Fire m_sweepTimer (513 * 1024 * 1024); RunJob;
               Fire m_sweepTimer (511 * 1024 * 1024); RunJob]
           (fired 513))
  = [EvAddJob SweepJob] ++ map EvSweep sweepOrder ++ [EvSetExpiration 60]
    ++ [EvFatal "Remaining free disk space is less than 512MB";
        EvSignalStop; EvAddJob SweepJob]
    ++ map EvSweep sweepOrder ++ [EvSetExpiration 60].
Proof. reflexivity. Qed.

End SweepRunsFacts.

Module RecoveryFacts.
Import MissingNode Recovery MissingNodeFacts.

Lemma attempted_app (l1 l2 : list Event) :
  attempted (l1 ++ l2) = attempted l1 ++ attempted l2.
Proof.
  induction l1 as [|e l1 IH]; simpl; auto.
  destruct e; simpl; now rewrite ?IH.
Qed.

Lemma afterExit_app (l1 l2 : list Event) :
  afterExit (l1 ++ l2) =
    match afterExit l1 with
    | Some post => Some (post ++ l2)
    | None => afterExit l2
    end.
Proof.
  induction l1 as [|e l1 IH]; simpl; auto.
  destruct e; simpl; auto.
Qed.

Lemma sorted_snoc (l : list seq_t) (s : seq_t) :
  StronglySorted N.lt l -> Forall (fun a => (a < s)%N) l ->
  StronglySorted N.lt (l ++ [s]).
Proof.
  induction l as [|x l IH]; simpl; intros Hs Hl.
  - repeat constructor.
  - inversion Hs; inversion Hl; subst.
    constructor; [auto|]. apply Forall_app. split; [assumption|].
    repeat constructor. assumption.
Qed.

(** With at most one call in the loop, replacing that call leaves no
    other call in the loop. *)
Lemma others_not_in_loop (l : list Call) (i : nat) (c x c' : Call) :
  nth_error l i = Some c -> inLoop c = true ->
  (List.length (filter inLoop l) <= 1)%nat ->
  In c' (set_nth i x l) -> c' = x \/ inLoop c' = false.
Proof.
  revert i. induction l as [|y l IH]; intros [|i] Hi Hc Hone Hin;
    simpl in *; try discriminate.
  - injection Hi as ->. rewrite Hc in Hone. simpl in Hone.
    destruct Hin as [<-|Hin]; [auto|]. right.
    assert (Hnil : filter inLoop l = [])
      by (destruct (filter inLoop l); [reflexivity|simpl in Hone; lia]).
    destruct (inLoop c') eqn:Hc'; [|reflexivity].
    assert (In c' (filter inLoop l)) by (apply filter_In; auto).
    rewrite Hnil in H. destruct H.
  - destruct Hin as [<-|Hin].
    + right. destruct (inLoop y) eqn:Hy; [|reflexivity].
      simpl in Hone.
      assert (Hin' : In c (filter inLoop l))
        by (apply filter_In; split; [eapply nth_error_In; eauto|auto]).
      destruct (filter inLoop l); [destruct Hin'|simpl in Hone; lia].
    + eapply IH; eauto.
      destruct (inLoop y); simpl in Hone; lia.
Qed.

Section Handler.

Variable getHashBySeq : seq_t -> uint256.

Local Abbreviation step := (step getHashBySeq).
Local Abbreviation run := (run getHashBySeq).



Lemma Ordered_init (seqs : list seq_t) :
  Forall (fun s => s <> 0%N) seqs -> Ordered (init seqs).
Proof.
  intros H. split; [now apply Inv_init|]. simpl.
  split; [constructor|]. split; [auto|]. split; [discriminate|].
  intros c Hc. apply in_map_iff in Hc as (s & <- & _). exact I.
Qed.

Lemma step_Ordered (i : nat) (f : Family) : Ordered f -> Ordered (step i f).
Proof.
  intros (HI & Hsort & Hzero & Hexit & Hahead).
  pose proof (step_Inv getHashBySeq i f HI) as HI'.
  split; [assumption|]. clear HI'.
  destruct HI as (Hmax & Hidle & Hone & Hok).
  unfold MissingNode.step, activeLoops in *.
  destruct (nth_error (calls f) i) as [c|] eqn:Hi;
    [|split; [|split; [|split]]; assumption].
  pose proof (Hok c (nth_error_In _ _ Hi)) as Hc.
  pose proof (Hahead c (nth_error_In _ _ Hi)) as Ha.
  pose proof (fun c' => loops_set_nth (calls f) i c c' Hi) as Hcount.
  destruct c as [s|s|s|]; simpl in Hc, Ha |- *.
  - (* the entry region: the trace gains one notification *)
    assert (Hatt : attempted (log f ++ [EvNotify s]) = attempted (log f))
      by (rewrite attempted_app; simpl; apply app_nil_r).
    destruct (N.eqb_spec (maxSeq f) 0) as [E|E];
      [|destruct (N.ltb_spec (maxSeq f) s)]; cbn [maxSeq calls log];
      rewrite Hatt.
    + specialize (Hzero E). rewrite Hzero.
      split; [constructor|]. split; [reflexivity|]. split.
      * intros post. rewrite afterExit_app.
        destruct (afterExit (log f)) as [p|] eqn:Hp; [|discriminate].
        destruct (Hexit p eq_refl) as (_ & Hn & _). contradiction.
      * intros c' Hin. apply In_set_nth in Hin as [->|Hin];
          [simpl; rewrite Hatt, Hzero; constructor|].
        specialize (Hahead c' Hin).
        destruct c'; simpl in *; rewrite ?Hatt; auto.
    + split; [assumption|]. split; [intros ->; contradiction|]. split.
      * intros post. rewrite afterExit_app.
        destruct (afterExit (log f)) as [p|] eqn:Hp; [|discriminate].
        intros Hpost. injection Hpost as <-.
        destruct (Hexit p eq_refl) as (Ha0 & Hn & Hall).
        specialize (Hcount Returned). simpl in Hcount.
        split; [lia|]. split; [lia|].
        apply Forall_app. split; [assumption|repeat constructor].
      * intros c' Hin. apply In_set_nth in Hin as [->|Hin]; [exact I|].
        specialize (Hahead c' Hin).
        destruct c'; simpl in *; rewrite ?Hatt; auto.
    + split; [assumption|]. split; [intros ?; contradiction|]. split.
      * intros post. rewrite afterExit_app.
        destruct (afterExit (log f)) as [p|] eqn:Hp; [|discriminate].
        intros Hpost. injection Hpost as <-.
        destruct (Hexit p eq_refl) as (Ha0 & Hn & Hall).
        specialize (Hcount Returned). simpl in Hcount.
        split; [lia|]. split; [assumption|].
        apply Forall_app. split; [assumption|repeat constructor].
      * intros c' Hin. apply In_set_nth in Hin as [->|Hin]; [exact I|].
        specialize (Hahead c' Hin).
        destruct c'; simpl in *; rewrite ?Hatt; auto.
  - (* the attempt *)
    destruct Hc as [Hs Hle].
    assert (Hatt : attempted
      (log f ++ (if (getHashBySeq s =? 0)%N then [EvAttempt s]
                 else [EvAttempt s; EvAcquire (getHashBySeq s) s]))
      = attempted (log f) ++ [s])
      by (rewrite attempted_app; destruct (getHashBySeq s =? 0)%N;
          reflexivity).
    cbn [maxSeq calls log]. rewrite Hatt.
    assert (Hnoexit : afterExit (log f) = None).
    { destruct (afterExit (log f)) as [p|] eqn:Hp; [|reflexivity].
      destruct (Hexit p eq_refl) as (Ha0 & _).
      specialize (Hcount Returned). simpl in Hcount. lia. }
    split; [now apply sorted_snoc|].
    split; [intros E; rewrite E in Hle; lia|]. split.
    + intros post. rewrite afterExit_app, Hnoexit.
      destruct (getHashBySeq s =? 0)%N; discriminate.
    + intros c' Hin.
      destruct (others_not_in_loop _ _ _ _ _ Hi eq_refl Hone Hin)
        as [->|Hno].
      * simpl. rewrite Hatt. apply Forall_app. split.
        -- eapply Forall_impl; [|exact Ha]. simpl. intros; lia.
        -- repeat constructor. lia.
      * destruct c'; simpl in *; try discriminate; exact I.
  - (* the loop test *)
    destruct Hc as (Hs & Hle & _).
    assert (Hnoexit : afterExit (log f) = None).
    { destruct (afterExit (log f)) as [p|] eqn:Hp; [|reflexivity].
      destruct (Hexit p eq_refl) as (Ha0 & _).
      specialize (Hcount Returned). simpl in Hcount. lia. }
    destruct (N.eqb_spec (maxSeq f) s) as [E|E]; cbn [negb maxSeq calls log].
    + rewrite attempted_app. simpl. rewrite app_nil_r.
      split; [assumption|]. split; [intros E0; rewrite E0 in Hle; lia|].
      split.
      * intros post. rewrite afterExit_app, Hnoexit. simpl.
        intros Hpost. injection Hpost as <-.
        specialize (Hcount Returned). simpl in Hcount.
        split; [lia|]. split; [lia|constructor].
      * intros c' Hin.
        destruct (others_not_in_loop _ _ _ _ _ Hi eq_refl Hone Hin)
          as [->|Hno]; [exact I|].
        destruct c'; simpl in *; try discriminate; exact I.
    + rewrite app_nil_r.
      split; [assumption|]. split; [assumption|]. split.
      * intros post Hpost. rewrite Hnoexit in Hpost. discriminate.
      * intros c' Hin.
        destruct (others_not_in_loop _ _ _ _ _ Hi eq_refl Hone Hin)
          as [->|Hno].
        -- simpl. eapply Forall_impl; [|exact Ha]. simpl. intros; lia.
        -- destruct c'; simpl in *; try discriminate; exact I.
  - (* a call that is over *)
    rewrite app_nil_r. cbn [maxSeq calls log].
    split; [assumption|]. split; [assumption|]. split.
    + intros post Hpost. destruct (Hexit post Hpost) as (Ha0 & Hn & Hall).
      specialize (Hcount Returned). simpl in Hcount.
      split; [lia|]. split; assumption.
    + intros c' Hin. apply In_set_nth in Hin as [->|Hin]; [exact I|].
      specialize (Hahead c' Hin). destruct c'; simpl in *; auto.
Qed.

Lemma run_Ordered (schedule : list nat) (f : Family) :
  Ordered f -> Ordered (run schedule f).
Proof.
  revert f. induction schedule as [|i schedule IH]; intros f H; simpl; auto.
  apply IH. now apply step_Ordered.
Qed.

End Handler.

Lemma maxOf_In (l : list seq_t) : l <> [] -> In (maxOf l) l.
Proof.
  induction l as [|x l IH]; [congruence|]. intros _. simpl.
  destruct l as [|y l].
  - left. simpl. lia.
  - destruct (N.max_spec x (maxOf (y :: l))) as [[_ ->]|[_ ->]].
    + right. apply IH. discriminate.
    + now left.
Qed.

Lemma set_nth_twice {A} (l : list A) (i : nat) (c c' : A) :
  set_nth i c' (set_nth i c l) = set_nth i c' l.
Proof.
  revert i. induction l as [|x l IH]; intros [|i]; simpl; auto.
  now rewrite IH.
Qed.

Section Sources.

Variable getHashBySeq : seq_t -> uint256.

Lemma Sourced_init (seqs : list seq_t) : Sourced getHashBySeq (init seqs).
Proof.
  unfold Sourced, init. simpl. repeat split; try tauto.
  intros c Hc. apply in_map_iff in Hc as (s & <- & _). exact I.
Qed.

Lemma step_Sourced (i : nat) (f : Family) :
  Sourced getHashBySeq f -> Sourced getHashBySeq (step getHashBySeq i f).
Proof.
  intros (Hmax & Hacq & Hatt & Hcalls).
  split; [now apply step_maxSeq|].
  unfold step in *.
  destruct (nth_error (calls f) i) as [c|] eqn:Hi;
    [|split; [|split]; assumption].
  pose proof (Hcalls c (nth_error_In _ _ Hi)) as Hc.
  assert (Hgrow : forall evs s,
            In s (notified (log f)) -> In s (notified (log f ++ evs)))
    by (intros; rewrite notified_app; apply in_app_iff; auto).
  destruct c as [s|s|s|]; simpl in Hc |- *.
  - (* the entry region *)
    assert (Hnew : In s (notified (log f ++ [EvNotify s])))
      by (rewrite notified_app; apply in_app_iff; simpl; auto).
    assert (Hm : In (maxSeq f) (notified (log f)) \/ maxSeq f = 0%N).
    { destruct (notified (log f)) as [|x l] eqn:Hn; [right; exact Hmax|].
      left. rewrite Hmax. apply maxOf_In. discriminate. }
    destruct (maxSeq f =? 0)%N; [|destruct (maxSeq f <? s)%N];
      cbn [maxSeq calls log]; (split; [|split]).
    all: try (intros h s0 Hin; apply in_app_iff in Hin as [Hin|[Hin|[]]];
              [|discriminate]; destruct (Hacq _ _ Hin) as (? & ? & ?);
              repeat split; auto; apply in_app_iff; auto).
    all: try (intros s0 Hin; apply in_app_iff in Hin as [Hin|[Hin|[]]];
              [|discriminate]; auto).
    all: intros c' Hin; apply In_set_nth in Hin as [->|Hin]; simpl; auto;
         specialize (Hcalls c' Hin); destruct c'; auto.
  - (* the attempt *)
    cbn [maxSeq calls log]. split; [|split].
    + intros h s0 Hin. apply in_app_iff in Hin as [Hin|Hin].
      * destruct (Hacq _ _ Hin) as (? & ? & ?).
        repeat split; auto. apply in_app_iff; auto.
      * destruct (N.eqb_spec (getHashBySeq s) 0) as [E|E]; simpl in Hin.
        -- destruct Hin as [Hin|[]]. discriminate.
        -- destruct Hin as [Hin|[Hin|[]]]; [discriminate|].
           injection Hin as <- <-. repeat split; auto.
           apply in_app_iff. right. simpl. auto.
    + intros s0 Hin. apply in_app_iff in Hin as [Hin|Hin]; [auto|].
      apply Hgrow.
      destruct (getHashBySeq s =? 0)%N; simpl in Hin.
      * destruct Hin as [Hin|[]]. injection Hin as <-. assumption.
      * destruct Hin as [Hin|[Hin|[]]];
          [injection Hin as <-; assumption|discriminate].
    + intros c' Hin; apply In_set_nth in Hin as [->|Hin]; simpl; auto.
      specialize (Hcalls c' Hin); destruct c'; auto.
  - (* the loop test *)
    assert (Hm : In (maxSeq f) (notified (log f))).
    { rewrite Hmax. apply maxOf_In. intros E. rewrite E in Hc.
      destruct Hc. }
    destruct (maxSeq f =? s)%N; cbn [negb maxSeq calls log];
      (split; [|split]).
    all: try (intros h s0 Hin; apply in_app_iff in Hin as [Hin|Hin];
              [|solve [destruct Hin as [Hin|[]]; discriminate
                      |destruct Hin]];
              destruct (Hacq _ _ Hin) as (? & ? & ?);
              repeat split; auto; apply in_app_iff; auto).
    all: try (intros s0 Hin; apply in_app_iff in Hin as [Hin|Hin];
              [auto|solve [destruct Hin as [Hin|[]]; discriminate
                          |destruct Hin]]).
    all: intros c' Hin; apply In_set_nth in Hin as [->|Hin]; simpl; auto;
         specialize (Hcalls c' Hin); destruct c'; auto.
  - (* a call that is over *)
    rewrite app_nil_r. cbn [maxSeq calls log]. split; [|split]; auto.
    intros c' Hin; apply In_set_nth in Hin as [->|Hin]; simpl; auto.
    exact (Hcalls c' Hin).
Qed.

Lemma run_Sourced (schedule : list nat) (f : Family) :
  Sourced getHashBySeq f -> Sourced getHashBySeq (run getHashBySeq schedule f).
Proof.
  revert f. induction schedule as [|i schedule IH]; intros f H; simpl; auto.
  apply IH. now apply step_Sourced.
Qed.

(** One step of the call at [i], told from its position. *)
Lemma step_at (i : nat) (c0 c : Call) (m : seq_t) (l : list Call)
    (lg : list Event) :
  nth_error l i = Some c0 ->
  step getHashBySeq i {| maxSeq := m; calls := set_nth i c l; log := lg |} =
    let '(m', c', evs) := advance getHashBySeq m c in
    {| maxSeq := m'; calls := set_nth i c' l; log := lg ++ evs |}.
Proof.
  intros H. unfold step. cbn [calls maxSeq log].
  rewrite (nth_error_set_nth l i c0 c H).
  destruct (advance getHashBySeq m c) as [[m' c'] evs].
  now rewrite set_nth_twice.
Qed.

Lemma step_first (i : nat) (c : Call) (m : seq_t) (l : list Call)
    (lg : list Event) :
  nth_error l i = Some c ->
  step getHashBySeq i {| maxSeq := m; calls := l; log := lg |} =
    let '(m', c', evs) := advance getHashBySeq m c in
    {| maxSeq := m'; calls := set_nth i c' l; log := lg ++ evs |}.
Proof. intros H. unfold step. cbn [calls maxSeq log]. now rewrite H. Qed.

End Sources.

(** X2. no recovery storm.  For notifications with non-zero sequence
    numbers, in every state any interleaving reaches the sequence
    numbers the loop has attempted are strictly increasing: no sequence
    number is attempted twice. *)
Theorem attempts_strictly_increase (getHashBySeq : seq_t -> uint256)
    (seqs : list seq_t) (schedule : list nat) :
  Forall (fun s => s <> 0%N) seqs ->
  StronglySorted N.lt
    (attempted (log (run getHashBySeq schedule (init seqs)))).
Proof.
  intros H.
  apply (run_Ordered getHashBySeq schedule (init seqs) (Ordered_init seqs H)).
Qed.

Lemma attempts_strictly_increase_witness :
  Forall (fun s => s <> 0%N) [5; 9; 7]%N /\
  StronglySorted N.lt
    (attempted (log (run (fun s => s + 1000)%N [0; 1; 0; 0; 2; 0; 0]%nat
                       (init [5; 9; 7]%N)))).
Proof.
  split; [repeat constructor; discriminate|].
  apply (attempts_strictly_increase (fun s => s + 1000)%N [5; 9; 7]%N
           [0; 1; 0; 0; 2; 0; 0]%nat).
  repeat constructor; discriminate.
Defined.

(** X3. the loop runs once.  For notifications with non-zero sequence
    numbers: [maxSeq] is never set back to 0, so once a loop has ended
    no loop is active in any later state and everything recorded after
    the end is a notification - nothing is attempted or acquired any
    more, whatever is notified. *)
Theorem nothing_happens_after_exit (getHashBySeq : seq_t -> uint256)
    (seqs : list seq_t) (schedule : list nat) (post : list Event) :
  Forall (fun s => s <> 0%N) seqs ->
  afterExit (log (run getHashBySeq schedule (init seqs))) = Some post ->
  activeLoops (run getHashBySeq schedule (init seqs)) = 0%nat /\
  maxSeq (run getHashBySeq schedule (init seqs)) <> 0%N /\
  Forall (fun e => isNotify e = true) post.
Proof.
  intros H.
  destruct (run_Ordered getHashBySeq schedule (init seqs)
              (Ordered_init seqs H)) as (_ & _ & _ & Hexit & _).
  apply Hexit.
Qed.

Lemma nothing_happens_after_exit_witness :
  Forall (fun s => s <> 0%N) [5; 9; 12]%N /\
  afterExit (log (run (fun s => s + 1000)%N [0; 0; 0; 1; 2; 1]%nat
                    (init [5; 9; 12]%N)))
    = Some [EvNotify 9; EvNotify 12]%N /\
  activeLoops (run (fun s => s + 1000)%N [0; 0; 0; 1; 2; 1]%nat
                 (init [5; 9; 12]%N)) = 0%nat.
Proof.
  split; [repeat constructor; discriminate|]. split; [reflexivity|].
  apply (nothing_happens_after_exit (fun s => s + 1000)%N [5; 9; 12]%N
           [0; 0; 0; 1; 2; 1]%nat [EvNotify 9; EvNotify 12]%N).
  - repeat constructor; discriminate.
  - reflexivity.
Defined.

(** X4. what is acquired.  Whatever the notifications are (zero
    included) and however they interleave, [acquire] is only requested
    with a non-zero hash, which is the hash [getHashBySeq] gives for the
    sequence number it is requested with, after an attempt for that
    sequence number; and only sequence numbers that were notified are
    attempted. *)
Theorem acquisitions_are_sourced (getHashBySeq : seq_t -> uint256)
    (seqs : list seq_t) (schedule : list nat) :
  (forall h s,
     In (EvAcquire h s) (log (run getHashBySeq schedule (init seqs))) ->
     h = getHashBySeq s /\ h <> 0%N /\
     In (EvAttempt s) (log (run getHashBySeq schedule (init seqs)))) /\
  (forall s,
     In (EvAttempt s) (log (run getHashBySeq schedule (init seqs))) ->
     In s (notified (log (run getHashBySeq schedule (init seqs)))) /\
     In s seqs).
Proof.
  destruct (run_Sourced getHashBySeq schedule (init seqs)
              (Sourced_init getHashBySeq seqs)) as (_ & Hacq & Hatt & _).
  split; [assumption|].
  intros s Hs. split; [auto|].
  specialize (Hatt s Hs).
  assert (G : forall sch f,
    (forall x, In x (notified (log f)) -> In x seqs) ->
    (forall c, In c (calls f) ->
       match c with Called x => In x seqs | _ => True end) ->
    forall x, In x (notified (log (run getHashBySeq sch f))) -> In x seqs).
  { clear. induction sch as [|i sch IH]; intros f Hn Hc; simpl; auto.
    apply IH.
    - unfold step. destruct (nth_error (calls f) i) as [c|] eqn:Hi; auto.
      pose proof (Hc c (nth_error_In _ _ Hi)) as Hx.
      destruct (advance getHashBySeq (maxSeq f) c) as [[m c'] evs] eqn:Ha.
      cbn [log]. intros x. rewrite notified_app, in_app_iff.
      intros [Hin|Hin]; [auto|].
      destruct c as [s0|s0|s0|]; simpl in Ha.
      + destruct (maxSeq f =? 0)%N; [|destruct (maxSeq f <? s0)%N];
          injection Ha as <- <- <-; destruct Hin as [<-|[]]; assumption.
      + injection Ha as <- <- <-.
        destruct (getHashBySeq s0 =? 0)%N; destruct Hin.
      + destruct (maxSeq f =? s0)%N; injection Ha as <- <- <-; destruct Hin.
      + injection Ha as <- <- <-. destruct Hin.
    - unfold step. destruct (nth_error (calls f) i) as [c|] eqn:Hi; auto.
      pose proof (Hc c (nth_error_In _ _ Hi)) as Hx.
      destruct (advance getHashBySeq (maxSeq f) c) as [[m c'] evs] eqn:Ha.
      cbn [calls]. intros c0 Hin.
      apply In_set_nth in Hin as [->|Hin]; [|exact (Hc c0 Hin)].
      destruct c as [s0|s0|s0|]; simpl in Ha.
      + destruct (maxSeq f =? 0)%N; [|destruct (maxSeq f <? s0)%N];
          injection Ha as <- <- <-; exact I.
      + injection Ha as <- <- <-. exact I.
      + destruct (maxSeq f =? s0)%N; injection Ha as <- <- <-; exact I.
      + injection Ha as <- <- <-. exact I. }
  apply (G schedule (init seqs)); [intros x []| |assumption].
  intros c Hc. apply in_map_iff in Hc as (x & <- & Hx). exact Hx.
Qed.

(** X5. the loop ends.  A call that is in the loop, left to run while no
    other call takes a step, returns within four of its own steps: it
    makes at most two attempts, leaves the remembered target as it is
    and ends on that target. *)
Theorem loop_ends_within_four_steps (getHashBySeq : seq_t -> uint256)
    (f : Family) (i : nat) (c : Call) :
  nth_error (calls f) i = Some c ->
  inLoop c = true ->
  let f' := run getHashBySeq [i; i; i; i] f in
  calls f' = set_nth i Returned (calls f) /\
  maxSeq f' = maxSeq f /\
  (exists evs, log f' = log f ++ evs ++ [EvExit (maxSeq f)] /\
               (List.length (attempted evs) <= 2)%nat) /\
  (activeLoops f' + 1 = activeLoops f)%nat.
Proof.
  intros Hi Hc f'.
  assert (Hloops : (activeLoops f' + 1 = activeLoops f)%nat ->
                   (activeLoops f' + 1 = activeLoops f)%nat) by auto.
  assert (Hcount : calls f' = set_nth i Returned (calls f) ->
                   (activeLoops f' + 1 = activeLoops f)%nat).
  { intros E. unfold activeLoops. rewrite E.
    pose proof (loops_set_nth (calls f) i c Returned Hi) as H.
    rewrite Hc in H. simpl in H. lia. }
  clear Hloops.
  assert (Hrun : calls f' = set_nth i Returned (calls f) /\
                 maxSeq f' = maxSeq f /\
                 exists evs, log f' = log f ++ evs ++ [EvExit (maxSeq f)] /\
                             (List.length (attempted evs) <= 2)%nat).
  { subst f'. destruct f as [m l lg]. cbn [calls maxSeq log] in *.
    unfold run, fold_left.
    destruct c as [s|s|s|]; try discriminate.
    - (* about to attempt *)
      rewrite (step_first getHashBySeq i _ m l lg Hi). cbn [advance].
      rewrite (step_at getHashBySeq i _ _ m l _ Hi). cbn [advance].
      destruct (N.eqb_spec m s) as [E|E]; cbn [negb].
      + rewrite (step_at getHashBySeq i _ _ m l _ Hi). cbn [advance].
        rewrite (step_at getHashBySeq i _ _ m l _ Hi). cbn [advance].
        cbn [calls maxSeq log]. split; [reflexivity|]. split; [reflexivity|].
        subst s.
        exists (if (getHashBySeq m =? 0)%N then [EvAttempt m]
                else [EvAttempt m; EvAcquire (getHashBySeq m) m]).
        rewrite !app_nil_r, <- !app_assoc.
        split; [reflexivity|]. destruct (getHashBySeq m =? 0)%N; simpl; lia.
      + rewrite (step_at getHashBySeq i _ _ m l _ Hi). cbn [advance].
        rewrite (step_at getHashBySeq i _ _ m l _ Hi). cbn [advance].
        rewrite N.eqb_refl. cbn [negb calls maxSeq log].
        split; [reflexivity|]. split; [reflexivity|].
        exists ((if (getHashBySeq s =? 0)%N then [EvAttempt s]
                 else [EvAttempt s; EvAcquire (getHashBySeq s) s]) ++
                (if (getHashBySeq m =? 0)%N then [EvAttempt m]
                 else [EvAttempt m; EvAcquire (getHashBySeq m) m])).
        rewrite !app_nil_r, <- !app_assoc.
        split; [reflexivity|]. rewrite RecoveryFacts.attempted_app, length_app.
        destruct (getHashBySeq s =? 0)%N, (getHashBySeq m =? 0)%N; simpl; lia.
    - (* about to test *)
      rewrite (step_first getHashBySeq i _ m l lg Hi). cbn [advance].
      destruct (N.eqb_spec m s) as [E|E]; cbn [negb].
      + do 3 (rewrite (step_at getHashBySeq i _ _ m l _ Hi); cbn [advance]).
        cbn [calls maxSeq log]. split; [reflexivity|]. split; [reflexivity|].
        subst s. exists []. rewrite !app_nil_r. split; [reflexivity|].
        simpl. lia.
      + do 2 (rewrite (step_at getHashBySeq i _ _ m l _ Hi); cbn [advance]).
        rewrite N.eqb_refl. cbn [negb].
        rewrite (step_at getHashBySeq i _ _ m l _ Hi). cbn [advance].
        cbn [calls maxSeq log]. split; [reflexivity|]. split; [reflexivity|].
        exists (if (getHashBySeq m =? 0)%N then [EvAttempt m]
                else [EvAttempt m; EvAcquire (getHashBySeq m) m]).
        rewrite !app_nil_r, <- !app_assoc.
        split; [reflexivity|]. destruct (getHashBySeq m =? 0)%N; simpl; lia. }
  destruct Hrun as (H1 & H2 & H3). auto.
Qed.

Lemma loop_ends_within_four_steps_witness :
  nth_error (calls (run (fun s => s + 1000)%N [0; 1]%nat (init [5; 9]%N)))
            0 = Some (Acquiring 5%N) /\
  calls (run (fun s => s + 1000)%N [0; 0; 0; 0]%nat
           (run (fun s => s + 1000)%N [0; 1]%nat (init [5; 9]%N)))
    = [Returned; Returned] /\
  maxSeq (run (fun s => s + 1000)%N [0; 0; 0; 0]%nat
            (run (fun s => s + 1000)%N [0; 1]%nat (init [5; 9]%N))) = 9%N.
Proof.
  split; [reflexivity|].
  destruct (loop_ends_within_four_steps (fun s => s + 1000)%N
              (run (fun s => s + 1000)%N [0; 1]%nat (init [5; 9]%N))
              0%nat (Acquiring 5%N) eq_refl eq_refl) as (H1 & H2 & _).
  split; [exact H1|exact H2].
Defined.

End RecoveryFacts.

Module LoadFacts.
Import Bootstrap BootstrapFacts.

Section Load.

Context {E : Externals}.

(** A plain load carries no ledger to replay. *)
Lemma selectLedger_plain (ledgerID : string) (isFileName : bool)
    (evs : list Event) (l : Ledger) (r : option Ledger) :
  selectLedger ledgerID false isFileName = (evs, Ret (Some (l, r))) ->
  r = None.
Proof.
  unfold selectLedger. intros H.
  apply bind_Ret in H as (evs1 & found & evs2 & _ & H & _).
  destruct found as [l0|]; simpl in H; inversion H. reflexivity.
Qed.

(** X6. a plain load is all or nothing.  Without replay,
    [loadOldLedger] returns [true] exactly when it has installed a
    ledger: on [true] the trace ends with the installation of one ledger
    that passes the three checks, and nothing was installed before; on
    any other outcome nothing has been installed at all. *)
Theorem plain_load_all_or_nothing (ledgerID : string) (isFileName : bool) :
  (snd (loadOldLedger ledgerID false isFileName) = Ret true ->
   exists evs l,
     fst (loadOldLedger ledgerID false isFileName) =
       evs ++
       [EvLog lsInfo "Loading ledger ";
        EvSetLedgerRangePresent (info_seq (setClosed l))
          (info_seq (setClosed l));
        EvMakeOpenLedger (setClosed l) closeTime_open;
        EvSwitchLCL (setClosed l);
        EvForceValid (setClosed l);
        EvSetLastCloseTime (info_closeTime (setClosed l));
        EvOpenLedgerEmplace (setClosed l)] /\
     Forall (fun e => isInstall e = false) evs /\
     passesGate (setClosed l) = true) /\
  (snd (loadOldLedger ledgerID false isFileName) <> Ret true ->
   Forall (fun e => isInstall e = false)
     (fst (loadOldLedger ledgerID false isFileName))).
Proof.
  pose proof (quiet_selectLedger ledgerID false isFileName) as Hq.
  pose proof (selectLedger_plain ledgerID isFileName) as Hplain.
  unfold quiet, every in Hq. unfold loadOldLedger.
  destruct (selectLedger ledgerID false isFileName) as [evs [sel|e| |]];
    cbn [fst] in Hq.
  - destruct sel as [[l r]|].
    + rewrite (Hplain evs l r eq_refl). cbn [bind].
      destruct (passesGate (setClosed l)) eqn:Hg.
      * rewrite (validateAndInstall_passes l Hg). cbn [try_catch fst snd].
        split; [intros _; exists evs, l; auto|]. intros H. congruence.
      * destruct (validateAndInstall_rejects l None Hg) as [msg ->].
        destruct NDEBUG; cbn [try_catch fst snd];
          (split; [discriminate|]); intros _;
          apply Forall_app; (split; [assumption|repeat constructor]).
    + cbn. split; [discriminate|]. intros _. rewrite app_nil_r. assumption.
  - destruct e; cbn; (split; [discriminate|]); intros _;
      apply Forall_app; (split; [assumption|repeat constructor]).
  - cbn. split; [discriminate|]. auto.
  - cbn. split; [discriminate|]. auto.
Qed.

(** What the loop over the transactions has done when a read fails. *)
Lemma replay_loop_fails (r : Ledger) (ids1 ids2 : list uint256)
    (t : uint256) (e : exn) (acc : list (N * STTx)) :
  (forall t', In t' ids1 -> exists p, txRead r t' = Val p) ->
  txRead r t = Raise e ->
  exists evs,
    foldM (replayTx r) (ids1 ++ t :: ids2) acc = (evs, Throw e) /\
    (forall t', In t' ids1 -> In (EvForceValidity t' SigGoodOnly) evs) /\
    Forall (fun x => match x with
                     | EvForceValidity _ _ | EvRawTxInsert _ _ => True
                     | _ => False
                     end) evs.
Proof.
  intros Hok Hbad. revert acc.
  induction ids1 as [|t1 ids1 IH]; intros acc; simpl.
  - exists []. unfold replayTx. rewrite Hbad. simpl.
    repeat split; [tauto|constructor].
  - destruct (Hok t1 (or_introl eq_refl)) as [p Hp].
    destruct (IH (fun t' H => Hok t' (or_intror H))
                (emplace (sfTransactionIndex (snd p)) (fst p) acc))
      as (evs & Hf & Hin & Hall).
    exists ([EvForceValidity t1 SigGoodOnly; EvRawTxInsert t1 (fst p)] ++ evs).
    unfold replayTx at 1. rewrite Hp. cbn [lift bind ret emit app].
    rewrite Hf. split; [reflexivity|]. split.
    + intros t' [<-|H]; [simpl; auto|]. simpl. right. right. auto.
    + simpl. repeat constructor. assumption.
Qed.

(** X7. a replay can fail after the ledger is installed.  When the
    parent ledger has passed the checks and one of the transactions of
    the replayed ledger cannot be read, [loadOldLedger] returns [false]
    although it has already switched to the parent ledger and built the
    open view on it, and has forced the validity of the transactions
    read before the failure; no replay package is handed over. *)
Theorem replay_failure_after_install
    (ledgerID : string) (isFileName : bool) (evs : list Event)
    (l r : Ledger) (ids1 ids2 : list uint256) (t : uint256) (e : exn) :
  selectLedger ledgerID true isFileName = (evs, Ret (Some (l, Some r))) ->
  passesGate (setClosed l) = true ->
  txMap r = ids1 ++ t :: ids2 ->
  (forall t', In t' ids1 -> exists p, txRead r t' = Val p) ->
  txRead r t = Raise e ->
  snd (loadOldLedger ledgerID true isFileName) = Ret false /\
  In (EvSwitchLCL (setClosed l)) (fst (loadOldLedger ledgerID true isFileName))
  /\
  In (EvOpenLedgerEmplace (setClosed l))
     (fst (loadOldLedger ledgerID true isFileName)) /\
  (forall t', In t' ids1 ->
     In (EvForceValidity t' SigGoodOnly)
        (fst (loadOldLedger ledgerID true isFileName))) /\
  (forall p, ~ In (EvTakeReplay p)
               (fst (loadOldLedger ledgerID true isFileName))).
Proof.
  intros Hsel Hg Hmap Hok Hbad.
  destruct (replay_loop_fails r ids1 ids2 t e [] Hok Hbad)
    as (evl & Hf & Hin & Hall).
  pose proof (quiet_selectLedger ledgerID true isFileName) as Hq.
  unfold quiet, every in Hq. rewrite Hsel in Hq. cbn [fst] in Hq.
  assert (Hrun : exists msg,
    loadOldLedger ledgerID true isFileName =
      (evs ++
       ([EvLog lsInfo "Loading ledger ";
         EvSetLedgerRangePresent (info_seq (setClosed l))
           (info_seq (setClosed l));
         EvMakeOpenLedger (setClosed l) closeTime_open;
         EvSwitchLCL (setClosed l);
         EvForceValid (setClosed l);
         EvSetLastCloseTime (info_closeTime (setClosed l));
         EvOpenLedgerEmplace (setClosed l)] ++ evl) ++
       [EvLog lsFatal msg], Ret false)).
  { unfold loadOldLedger. rewrite Hsel. cbn [bind].
    unfold validateAndInstall. unfold passesGate in Hg.
    destruct (info_accountHash (setClosed l) =? 0)%N; [discriminate|].
    destruct (walkLedger (setClosed l)); [|discriminate].
    destruct (assertSane (setClosed l)); [|discriminate].
    unfold buildReplay. rewrite Hmap, Hf.
    destruct e; simpl; eexists; rewrite <- ?app_assoc, ?app_nil_r; simpl;
      reflexivity. }
  destruct Hrun as [msg ->]. cbn [fst snd].
  split; [reflexivity|].
  split; [rewrite !in_app_iff; simpl; auto 12|].
  split; [rewrite !in_app_iff; simpl; auto 12|].
  split; [intros t' Ht; rewrite !in_app_iff; auto 6|].
  intros p Hp. rewrite !in_app_iff in Hp.
  destruct Hp as [Hp|[[Hp|Hp]|Hp]].
  - rewrite Forall_forall in Hq. specialize (Hq _ Hp). discriminate.
  - simpl in Hp. repeat (destruct Hp as [Hp|Hp]; [discriminate|]).
    destruct Hp.
  - rewrite Forall_forall in Hall. exact (Hall _ Hp).
  - destruct Hp as [Hp|[]]. discriminate.
Qed.


(** X9. what [getLastFullLedger] gives back.  It never lets
    [SHAMapMissingNode] out: a failing query gives the null pointer with
    one warning, an empty index the null pointer with nothing logged.  A
    ledger it returns is the newest row of the index, closed and made
    immutable (and validated when the ledger master has it), and its
    hash is the hash stored in that row. *)
Theorem getLastFullLedger_result :
  snd getLastFullLedger <> Throw SHAMapMissingNode /\
  (loadLedgerHelper = Raise SHAMapMissingNode ->
   getLastFullLedger =
     ([EvLog lsWarning "Database contains ledger with missing nodes: "],
      Ret None)) /\
  (forall seq h, loadLedgerHelper = Val (None, seq, h) ->
                 getLastFullLedger = ([], Ret None)) /\
  (forall evs l,
     getLastFullLedger = (evs, Ret (Some l)) ->
     exists ledger seq,
       loadLedgerHelper = Val (Some ledger, seq, getHash l) /\
       l = (if haveLedger seq
            then setValidated (setImmutable (setClosed ledger))
            else setImmutable (setClosed ledger)) /\
       evs = [EvLog lsTrace "Loaded ledger: "]).
Proof.
  unfold getLastFullLedger, assert_false.
  destruct loadLedgerHelper as [[[[ledger|] seq] h]|e]; simpl.
  - set (loaded := if haveLedger seq
                   then setValidated (setImmutable (setClosed ledger))
                   else setImmutable (setClosed ledger)).
    destruct (N.eqb_spec (getHash loaded) h) as [Eh|Eh]; simpl.
    + repeat split; try discriminate.
      intros evs l H. inversion H; subst. exists ledger, seq. auto.
    + destruct NDEBUG; simpl; repeat split; try discriminate.
  - repeat split; try discriminate.
  - destruct e; simpl; repeat split; try discriminate.
Qed.

(** X10. Identifiers that name no ledger.  For a load that is not from
    a file and an identifier that is neither empty nor "latest":
    - when the identifier is neither 64 characters long nor a number,
      the cast throws before anything is done: if what it throws is a
      [boost::bad_lexical_cast] the load writes one fatal line and
      returns [false], otherwise the exception leaves [loadOldLedger]
      and nothing is written;
    - when it is 64 characters long and its hash is neither in the index
      nor in the back end, the load writes one fatal line and returns
      [false];
    - when it is a number and the index has no ledger of that sequence,
      the same (the back end is not tried);
    - when the lookup in the index, by hash or by sequence, or the check
      of the back end runs into missing nodes, the load writes "Data is
      missing for selected ledger" and returns [false]. *)
Theorem unresolved_identifier_fails (ledgerID : string) (replay : bool) :
  ledgerID <> EmptyString -> ledgerID <> "latest" ->
  (String.length ledgerID <> 64%nat ->
   lexicalCast_u32 ledgerID = None ->
   loadOldLedger ledgerID replay false
     = if throws_bad_lexical_cast
       then ([EvLog lsFatal "Ledger specified '"], Ret false)
       else ([], Uncaught)) /\
  (String.length ledgerID = 64%nat ->
   loadByHash (SetHex ledgerID) = Val None ->
   checkLocal (SetHex ledgerID) = Val false \/
   checkLocal (SetHex ledgerID) = Val true /\
   il_getLedger (SetHex ledgerID) = None ->
   loadOldLedger ledgerID replay false
     = ([EvLog lsFatal "No Ledger found from ledgerID="], Ret false)) /\
  (String.length ledgerID = 64%nat ->
   loadByHash (SetHex ledgerID) = Raise SHAMapMissingNode \/
   loadByHash (SetHex ledgerID) = Val None /\
   checkLocal (SetHex ledgerID) = Raise SHAMapMissingNode ->
   loadOldLedger ledgerID replay false
     = ([EvLog lsFatal "Data is missing for selected ledger"], Ret false)) /\
  (forall seq,
     String.length ledgerID <> 64%nat ->
     lexicalCast_u32 ledgerID = Some seq ->
     (loadByIndex seq = Val None ->
      loadOldLedger ledgerID replay false
        = ([EvLog lsFatal "No Ledger found from ledgerID="], Ret false)) /\
     (loadByIndex seq = Raise SHAMapMissingNode ->
      loadOldLedger ledgerID replay false
        = ([EvLog lsFatal "Data is missing for selected ledger"],
           Ret false))).
Proof.
  intros Hne Hnl.
  assert (Hc : ((String.length ledgerID =? 0)%nat
                || String.eqb ledgerID "latest") = false).
  { apply orb_false_iff. split.
    - destruct ledgerID; [congruence|reflexivity].
    - now apply String.eqb_neq. }
  unfold loadOldLedger, selectLedger, findLedger, fromBackEnd,
    lexicalCastThrow_u32, castFailure.
  rewrite Hc. split; [|split; [|split]].
  - intros H64 Hcast. apply Nat.eqb_neq in H64. rewrite H64, Hcast.
    destruct throws_bad_lexical_cast; reflexivity.
  - intros H64 Hh Hb. apply Nat.eqb_eq in H64. rewrite H64, Hh. simpl.
    destruct Hb as [Hb|[Hb Hg]]; rewrite Hb; simpl; rewrite ?Hg;
      reflexivity.
  - intros H64 Hb. apply Nat.eqb_eq in H64. rewrite H64.
    destruct Hb as [Hb|[Hh Hb]].
    + rewrite Hb. reflexivity.
    + rewrite Hh. simpl. rewrite Hb. reflexivity.
  - intros seq H64 Hcast. apply Nat.eqb_neq in H64. rewrite H64, Hcast.
    split; intros Hl; simpl; rewrite Hl; reflexivity.
Qed.

(** X11. Files that give no ledger.  A load from a file that cannot be
    opened, or whose content is not JSON, writes two fatal lines and
    returns [false].  For a full export - a document that, once
    unwrapped, has the key "accountState" - with a "total_coins" that is
    no number, the cast throws before the state nodes are looked at: if
    what it throws is a [boost::bad_lexical_cast] the load writes one
    fatal line and returns [false], otherwise the exception leaves
    [loadOldLedger] and nothing is written.  Without "accountState" the
    coin totals are not read: such a document that is not an array is
    refused with "State nodes must be an array", whatever its
    "total_coins".  In none of these cases is a ledger constructed. *)
Theorem unreadable_file_fails (path : string) (replay : bool) :
  (openFile path = None ->
   loadOldLedger path replay true
     = ([EvLog lsFatal "Unable to open file";
         EvLog lsFatal "No Ledger found from ledgerID="], Ret false)) /\
  (forall content,
     openFile path = Some content -> readerParse content = None ->
     loadOldLedger path replay true
       = ([EvLog lsFatal "Unable to parse ledger JSON";
           EvLog lsFatal "No Ledger found from ledgerID="], Ret false)) /\
  (forall content jLedger,
     openFile path = Some content -> readerParse content = Some jLedger ->
     isMember "accountState" (unwrap jLedger) = true ->
     isMember "total_coins" (unwrap jLedger) = true ->
     lexicalCast_u64 (asString (member "total_coins" (unwrap jLedger)))
       = None ->
     loadOldLedger path replay true
       = if throws_bad_lexical_cast
         then ([EvLog lsFatal "Ledger specified '"], Ret false)
         else ([], Uncaught)) /\
  (forall content jLedger,
     openFile path = Some content -> readerParse content = Some jLedger ->
     isMember "accountState" (unwrap jLedger) = false ->
     isArray (unwrap jLedger) = false ->
     loadOldLedger path replay true
       = ([EvLog lsFatal "State nodes must be an array";
           EvLog lsFatal "No Ledger found from ledgerID="], Ret false)).
Proof.
  unfold loadOldLedger, selectLedger, findLedger, loadFromFile.
  split; [|split; [|split]].
  - intros ->. reflexivity.
  - intros content -> ->. reflexivity.
  - intros content jLedger -> -> Ha Ht Hc.
    unfold ledgerFromJson, readHeader, lexicalCastThrow_u64, castFailure.
    rewrite Ha, Ht, Hc. destruct throws_bad_lexical_cast; reflexivity.
  - intros content jLedger -> -> Ha Hna.
    unfold ledgerFromJson, readHeader.
    rewrite Ha. cbn [bind ret]. rewrite Hna. reflexivity.
Qed.

End Load.

(** In the node [Lossy.lossy] the replay of ledger 7 stops at the
    transaction that cannot be read. *)
Lemma replay_failure_after_install_witness :
  txMap (Externals := Lossy.lossy) Demo.ledger7 = [10; 11; 12; 99]%N /\
  txRead (Externals := Lossy.lossy) Demo.ledger7 99%N
    = Raise SHAMapMissingNode /\
  snd (loadOldLedger (E := Lossy.lossy) "7" true false) = Ret false /\
  In (EvSwitchLCL (E := Lossy.lossy) Demo.ledger6)
     (fst (loadOldLedger (E := Lossy.lossy) "7" true false)).
Proof.
  split; [reflexivity|]. split; [reflexivity|].
  destruct (replay_failure_after_install (E := Lossy.lossy) "7" false
              [EvLog lsInfo "Loading parent ledger"]
              Demo.ledger6 Demo.ledger7 [10; 11; 12]%N [] 99%N
              SHAMapMissingNode eq_refl eq_refl eq_refl)
    as (H1 & H2 & _).
  - intros t' [<-|[<-|[<-|[]]]]; eexists; reflexivity.
  - reflexivity.
  - split; [exact H1|exact H2].
Defined.

Lemma plain_load_all_or_nothing_witness :
  snd (loadOldLedger (E := Demo.demo true 700%N) "8" false false) <> Ret true
  /\
  Forall (fun e => isInstall e = false)
    (fst (loadOldLedger (E := Demo.demo true 700%N) "8" false false)).
Proof.
  split; [discriminate|].
  apply (proj2 (plain_load_all_or_nothing (E := Demo.demo true 700%N)
                  "8" false)).
  discriminate.
Defined.


(** On the demo node, where a failed cast throws what the handler
    catches: "seven" is no number, and the index has no ledger 9. *)
Lemma unresolved_identifier_fails_witness :
  loadOldLedger (E := Demo.demo true 700%N) "seven" false false
    = ([EvLog lsFatal "Ledger specified '"], Ret false) /\
  loadOldLedger (E := Demo.demo true 700%N) "9" false false
    = ([EvLog lsFatal "No Ledger found from ledgerID="], Ret false).
Proof.
  split.
  - exact (proj1 (unresolved_identifier_fails (E := Demo.demo true 700%N)
                    "seven" false ltac:(discriminate) ltac:(discriminate))
             ltac:(discriminate) eq_refl).
  - exact (proj1 (proj2 (proj2 (proj2
             (unresolved_identifier_fails (E := Demo.demo true 700%N)
                "9" false ltac:(discriminate) ltac:(discriminate))))
             9%N ltac:(discriminate) eq_refl) eq_refl).
Defined.

(** On the demo node: a file that does not parse, an export whose coin
    total is "lots", and an object without "accountState". *)
Lemma unreadable_file_fails_witness :
  loadOldLedger (E := Demo.demo true 700%N) "missing.json" false true
    = ([EvLog lsFatal "Unable to parse ledger JSON";
        EvLog lsFatal "No Ledger found from ledgerID="], Ret false) /\
  loadOldLedger (E := Demo.demo true 700%N) "coins.json" false true
    = ([EvLog lsFatal "Ledger specified '"], Ret false) /\
  loadOldLedger (E := Demo.demo true 700%N) "other.json" false true
    = ([EvLog lsFatal "State nodes must be an array";
        EvLog lsFatal "No Ledger found from ledgerID="], Ret false).
Proof.
  split; [|split].
  - exact (proj1 (proj2 (unreadable_file_fails (E := Demo.demo true 700%N)
                           "missing.json" false))
             "missing.json" eq_refl eq_refl).
  - exact (proj1 (proj2 (proj2 (unreadable_file_fails
                                  (E := Demo.demo true 700%N)
                                  "coins.json" false)))
             "coins.json"
             (JObject [("total_coins", JString "lots");
                       ("accountState",
                        JArray [Demo.entry "0D" "AccountRoot"])])
             eq_refl eq_refl eq_refl eq_refl eq_refl).
  - exact (proj2 (proj2 (proj2 (unreadable_file_fails
                                  (E := Demo.demo true 700%N)
                                  "other.json" false)))
             "other.json" (JObject [("ledger_index", JNum 5)])
             eq_refl eq_refl eq_refl eq_refl).
Defined.

Lemma getLastFullLedger_result_witness :
  getLastFullLedger (E := Demo.demo true 700%N)
    = ([EvLog lsTrace "Loaded ledger: "], Ret (Some Demo.ledger7)) /\
  exists ledger seq,
    loadLedgerHelper (Externals := Demo.demo true 700%N)
      = Val (Some ledger, seq, 700%N).
Proof.
  split; [reflexivity|].
  destruct (proj2 (proj2 (proj2 (getLastFullLedger_result
                                   (E := Demo.demo true 700%N))))
              [EvLog lsTrace "Loaded ledger: "] Demo.ledger7 eq_refl)
    as (ledger & seq & Hrow & _).
  exists ledger, seq. exact Hrow.
Defined.

End LoadFacts.

Module StartupFacts.
Import Bootstrap BootstrapFacts Startup.

Section Setup.

Context {E : Externals} {S : StartupExternals E}.



Lemma switched_Boot (evs : list Event) :
  switched (map Boot evs) = switchedL evs.
Proof.
  induction evs as [|e evs IH]; simpl; auto.
  unfold switched in *. simpl. rewrite IH. destruct e; reflexivity.
Qed.

Lemma emplaced_Boot (evs : list Event) :
  emplaced (map Boot evs) = emplacedL evs.
Proof.
  induction evs as [|e evs IH]; simpl; auto.
  unfold emplaced in *. simpl. rewrite IH. destruct e; reflexivity.
Qed.

Lemma quiet_no_install (evs : list Event) :
  Forall (fun e => isInstall e = false) evs ->
  switchedL evs = [] /\ emplacedL evs = [].
Proof.
  induction 1 as [|e evs He _ [IH1 IH2]]; simpl; auto.
  unfold switchedL, emplacedL in *. simpl. rewrite IH1, IH2.
  destruct e; simpl in *; try discriminate; auto.
Qed.

Lemma buildReplay_no_install (r : Ledger) :
  every (fun e => match e with
                  | EvSwitchLCL _ | EvOpenLedgerEmplace _ => False
                  | _ => True
                  end) (buildReplay r).
Proof. unfold buildReplay, replayTx. every_auto; exact I. Qed.

Lemma no_install_lists (evs : list Event) :
  Forall (fun e => match e with
                   | EvSwitchLCL _ | EvOpenLedgerEmplace _ => False
                   | _ => True
                   end) evs ->
  switchedL evs = [] /\ emplacedL evs = [].
Proof.
  induction 1 as [|e evs He _ [IH1 IH2]]; simpl; auto.
  unfold switchedL, emplacedL in *. simpl. rewrite IH1, IH2.
  destruct e; simpl in *; try contradiction; auto.
Qed.

(** A load that returns [true] has switched once and built the open
    view once, on the same ledger, which passes the checks. *)
Lemma load_installs_once (ledgerID : string) (replay isFileName : bool)
    (evs : list Event) :
  loadOldLedger ledgerID replay isFileName = (evs, Ret true) ->
  exists l, switchedL evs = [l] /\ emplacedL evs = [l] /\
            passesGate l = true.
Proof.
  intros H.
  pose proof (gated_loadOldLedger ledgerID replay isFileName) as Hg.
  unfold every in Hg. rewrite H in Hg. cbn [fst] in Hg.
  unfold loadOldLedger in H.
  destruct (bind (selectLedger ledgerID replay isFileName) _)
    as [evs' [b|e| |]] eqn:Hbody; simpl in H;
    [|destruct e; simpl in H; inversion H|discriminate|discriminate].
  inversion H; subst evs' b; clear H.
  apply bind_Ret in Hbody as (evs1 & sel & evs2 & Hsel & Hk & ->).
  pose proof (quiet_selectLedger ledgerID replay isFileName) as Hq.
  unfold quiet, every in Hq. rewrite Hsel in Hq. cbn [fst] in Hq.
  destruct sel as [[l r]|]; [|inversion Hk].
  apply validateAndInstall_accepts in Hk as (evr & Hr & ->).
  assert (Hnr : switchedL evr = [] /\ emplacedL evr = []).
  { apply no_install_lists. destruct r as [r|].
    - pose proof (buildReplay_no_install r) as Hb. unfold every in Hb.
      rewrite Hr in Hb. exact Hb.
    - inversion Hr. constructor. }
  destruct (quiet_no_install evs1 Hq) as [Hs1 He1].
  destruct Hnr as [Hs2 He2].
  exists (setClosed l). unfold switchedL, emplacedL in *.
  rewrite !flat_map_app, Hs1, He1, Hs2, He2. simpl.
  split; [reflexivity|]. split; [reflexivity|].
  rewrite Forall_forall in Hg.
  apply (Hg (EvSwitchLCL (setClosed l))).
  rewrite !in_app_iff. simpl. auto 10.
Qed.

Lemma load_continues (startUp : StartUp) :
  snd (load startUp) = Continues ->
  exists l,
    switched (fst (load startUp)) = [l] /\
    emplaced (fst (load startUp)) = [l] /\
    passesGate l = true.
Proof.
  unfold load.
  destruct (loadOldLedger START_LEDGER (isReplay startUp)
              (isLoadFile startUp)) as [evs o] eqn:Hl.
  cbn [fst snd]. destruct o as [[|]|e| |]; try discriminate. intros _.
  destruct (load_installs_once _ _ _ _ Hl) as (l & H1 & H2 & H3).
  exists l.
  change (switched (Boot (EvLog lsInfo "Loading specified Ledger")
                      :: map Boot evs)) with (switched (map Boot evs)).
  change (emplaced (Boot (EvLog lsInfo "Loading specified Ledger")
                      :: map Boot evs)) with (emplaced (map Boot evs)).
  rewrite switched_Boot, emplaced_Boot. auto.
Qed.

(** X12. one installation, whatever the start-up mode.  Whenever the
    choice of the start-up mode lets [setup] go on, the last-closed
    ledger has been switched exactly once and the open view built
    exactly once, both on the same ledger.  In the modes that load it is
    a ledger that passes the three checks; in all others it is the
    closed, immutable successor of the genesis ledger, opened at the
    close time of the time keeper. *)
Theorem bootstrap_installs_once (startUp : StartUp) :
  snd (bootstrap startUp) = Continues ->
  exists l,
    switched (fst (bootstrap startUp)) = [l] /\
    emplaced (fst (bootstrap startUp)) = [l] /\
    (if isLoadMode startUp then passesGate l = true
     else l = setImmutable (setClosed (updateSkipList
                (open_ledger create_genesis closeTime_genesis)))).
Proof.
  destruct startUp; cbn [bootstrap isLoadMode fst snd]; intros H;
    try (apply load_continues; exact H).
  - eexists. repeat split.
  - unfold dump in H. destruct (fetch _) as [obj|]; [|discriminate].
    destruct (dumpDecode _ _) as [[[?|]|]|]; discriminate.
  - eexists. unfold switched, emplaced.
    destruct RUN_STANDALONE; simpl; repeat split.
  - eexists. repeat split.
Qed.

(** X13. how the choice can end the process.  The choice of the start-up
    mode exits only with code 0, and then the mode is [DUMP], or with
    code -1, and then the mode is one that loads and [loadOldLedger] has
    returned [false].  [DUMP] never lets [setup] go on and never
    installs or stores a ledger. *)
Theorem bootstrap_exit_codes (startUp : StartUp) :
  (forall code,
     snd (bootstrap startUp) = Exits code ->
     code = 0%Z /\ startUp = DUMP \/
     code = (-1)%Z /\ isLoadMode startUp = true /\
     snd (loadOldLedger START_LEDGER (isReplay startUp) (isLoadFile startUp))
       = Ret false) /\
  snd (bootstrap DUMP) <> Continues /\
  (forall e, In e (fst (bootstrap DUMP)) ->
     (exists tx, e = EvCout tx) \/
     e = Boot (EvLog lsWarning "Invalid DB node ")).
Proof.
  split; [|split].
  - intros code.
    destruct startUp; simpl; try discriminate.
    + unfold dump. destruct (fetch _) as [obj|];
        [destruct (dumpDecode _ _) as [[[?|]|]|]|];
        intros H; inversion H; auto.
    + unfold load. destruct (loadOldLedger _ _ _) as [evs [[|]|e| |]];
        intros H; inversion H; auto.
    + unfold load. destruct (loadOldLedger _ _ _) as [evs [[|]|e| |]];
        intros H; inversion H; auto.
    + unfold load. destruct (loadOldLedger _ _ _) as [evs [[|]|e| |]];
        intros H; inversion H; auto.
  - simpl. unfold dump. destruct (fetch _) as [obj|]; [|discriminate].
    destruct (dumpDecode _ _) as [[[?|]|]|]; discriminate.
  - simpl. unfold dump. destruct (fetch _) as [obj|]; [|intros e []].
    destruct (dumpDecode _ _) as [[[tx|]|]|]; intros e Hin;
      simpl in Hin; try tauto; destruct Hin as [<-|[]]; eauto.
Qed.


(** X15. asking for a network ledger.  The choice of the start-up mode
    says that a network ledger is needed exactly in mode [NETWORK] on a
    node that is not stand-alone, and then before anything else; apart
    from that call [NETWORK] does what the default does. *)
Theorem needNetworkLedger_only_on_network (startUp : StartUp) :
  (In EvNeedNetworkLedger (fst (bootstrap startUp)) <->
   startUp = NETWORK /\ RUN_STANDALONE = false) /\
  bootstrap NETWORK =
    ((if RUN_STANDALONE then [] else [EvNeedNetworkLedger])
     ++ fst (bootstrap NORMAL), snd (bootstrap NORMAL)).
Proof.
  split.
  - split.
    + destruct startUp; simpl.
      * intros [H|[H|[H|[H|[H|[]]]]]]; discriminate.
      * unfold dump. destruct (fetch _) as [obj|]; [|intros []].
        destruct (dumpDecode _ _) as [[[tx|]|]|]; simpl;
          intros H; try tauto; destruct H as [H|[]]; discriminate.
      * unfold load. destruct (loadOldLedger _ _ _) as [evs o]. simpl.
        intros [H|H]; [discriminate|].
        apply in_map_iff in H as (e & He & _). discriminate.
      * unfold load. destruct (loadOldLedger _ _ _) as [evs o]. simpl.
        intros [H|H]; [discriminate|].
        apply in_map_iff in H as (e & He & _). discriminate.
      * unfold load. destruct (loadOldLedger _ _ _) as [evs o]. simpl.
        intros [H|H]; [discriminate|].
        apply in_map_iff in H as (e & He & _). discriminate.
      * destruct RUN_STANDALONE; simpl; auto.
        intros [H|[H|[H|[H|[]]]]]; discriminate.
      * intros [H|[H|[H|[H|[]]]]]; discriminate.
    + intros [-> Hs]. simpl. rewrite Hs. simpl. auto.
  - simpl. destruct RUN_STANDALONE; reflexivity.
Qed.

End Setup.

(** The demo node replays ledger 7 and goes on, having switched once. *)
Lemma bootstrap_installs_once_witness :
  snd (bootstrap (S := demoStartup false "7" "0") REPLAY) = Continues /\
  exists l,
    switched (fst (bootstrap (S := demoStartup false "7" "0") REPLAY)) = [l] /\
    emplaced (fst (bootstrap (S := demoStartup false "7" "0") REPLAY)) = [l].
Proof.
  split; [reflexivity|].
  destruct (bootstrap_installs_once (S := demoStartup false "7" "0") REPLAY
              eq_refl) as (l & H1 & H2 & _).
  exists l. split; assumption.
Defined.

(** Asked to load ledger 8, which has lost nodes, it exits with -1. *)
Lemma bootstrap_exit_codes_witness :
  snd (bootstrap (S := demoStartup false "8" "0") LOAD) = Exits (-1) /\
  snd (loadOldLedger (E := Demo.demo true 700%N) "8" false false)
    = Ret false.
Proof.
  split; [reflexivity|].
  destruct (proj1 (bootstrap_exit_codes (S := demoStartup false "8" "0") LOAD)
              (-1)%Z eq_refl) as [[H _]|(_ & _ & H)].
  - discriminate H.
  - exact H.
Defined.


Lemma needNetworkLedger_only_on_network_witness :
  In (EvNeedNetworkLedger (E := Demo.demo true 700%N))
     (fst (bootstrap (S := demoStartup false "7" "0") NETWORK)).
Proof.
  apply (proj2 (proj1 (needNetworkLedger_only_on_network
                         (S := demoStartup false "7" "0") NETWORK))).
  split; reflexivity.
Defined.

End StartupFacts.

Module DatabasesFacts.
Import Databases.

Lemma knownType_dec (type : string) :
  ((String.length type =? 0)%nat || String.eqb type "sqlite"
   || String.eqb type "mysql" || String.eqb type "none") = true
  <-> knownType type.
Proof.
  unfold knownType. rewrite !orb_true_iff, !String.eqb_eq, Nat.eqb_eq.
  destruct type; simpl; intuition (try discriminate; try congruence).
Qed.

(** X16. which transaction databases can be opened.  Called with the
    three pointers null, [initSqliteDbs] always opens ledger.db and
    wallet.db; it returns [true] exactly when the type of the section
    [transaction_db] is empty, "sqlite", "mysql" or "none", and for any
    other type leaves the transaction database null and returns
    [false], on which [setup] logs a fatal line and exits with
    code 3. *)
Theorem initSqliteDbs_known_types (ndebug : bool) (section : Section_) :
  exists b dbs,
    initSqliteDbs ndebug section closed = Some (b, dbs) /\
    mLedgerDB dbs = Some {| dbType := Sqlite; dbTarget := "ledger.db";
                            dbInit := LedgerDBInit |} /\
    mWalletDB dbs = Some {| dbType := Sqlite; dbTarget := "wallet.db";
                            dbInit := WalletDBInit |} /\
    (b = true <-> knownType (get section "type")) /\
    (b = false -> mTxnDB dbs = None) /\
    (b = true -> openDatabases ndebug section closed = Open dbs) /\
    (b = false ->
     openDatabases ndebug section closed =
       ExitWithCode 3 "Can not create database connections!").
Proof.
  unfold openDatabases, initSqliteDbs, closed. cbn [mTxnDB mLedgerDB mWalletDB isNull].
  rewrite andb_false_r.
  pose proof (knownType_dec (get section "type")) as Hk.
  destruct ((String.length (get section "type") =? 0)%nat
            || String.eqb (get section "type") "sqlite") eqn:H1;
    [|destruct (String.eqb (get section "type") "mysql") eqn:H2;
      [|destruct (String.eqb (get section "type") "none") eqn:H3]];
    simpl in Hk; eexists _, _; (split; [reflexivity|]); simpl;
    repeat split; try tauto; try discriminate; try reflexivity.
  all: try (intros _; apply Hk; reflexivity).
Qed.

(** X17. a second call.  Where [assert] is compiled in, a call of
    [initSqliteDbs] with a database already open stops the process.
    Where it is compiled out, such a call with a type it does not know
    keeps the transaction database that is open and returns [true]. *)
Theorem initSqliteDbs_again (section : Section_) (dbs : Dbs) (db : DatabaseCon) :
  mTxnDB dbs = Some db ->
  initSqliteDbs false section dbs = None /\
  (~ knownType (get section "type") ->
   exists dbs',
     initSqliteDbs true section dbs = Some (true, dbs') /\
     mTxnDB dbs' = Some db).
Proof.
  intros Hdb. unfold initSqliteDbs. rewrite Hdb. simpl. split; [reflexivity|].
  intros Hk.
  pose proof (knownType_dec (get section "type")) as Hd.
  destruct ((String.length (get section "type") =? 0)%nat
            || String.eqb (get section "type") "sqlite") eqn:H1;
    [exfalso; apply Hk, Hd; reflexivity|].
  destruct (String.eqb (get section "type") "mysql") eqn:H2;
    [exfalso; apply Hk, Hd; reflexivity|].
  destruct (String.eqb (get section "type") "none") eqn:H3;
    [exfalso; apply Hk, Hd; reflexivity|].
  eexists. split; reflexivity.
Qed.

Lemma initSqliteDbs_known_types_witness :
  knownType (get [("type", "mysql"); ("host", "db1")] "type") /\
  exists dbs,
    openDatabases true [("type", "mysql"); ("host", "db1")] closed = Open dbs.
Proof.
  split; [right; right; left; reflexivity|].
  destruct (initSqliteDbs_known_types true
              [("type", "mysql"); ("host", "db1")])
    as (b & dbs & _ & _ & _ & Hb & _ & Ho & _).
  exists dbs. apply Ho. apply Hb. right. right. left. reflexivity.
Defined.

Lemma initSqliteDbs_again_witness :
  initSqliteDbs false [("type", "postgres")]
    {| mTxnDB := Some {| dbType := NoDb; dbTarget := EmptyString;
                         dbInit := TxnDBInit |};
       mLedgerDB := None; mWalletDB := None |} = None.
Proof.
  apply (proj1 (initSqliteDbs_again [("type", "postgres")]
                  {| mTxnDB := Some {| dbType := NoDb; dbTarget := EmptyString;
                                       dbInit := TxnDBInit |};
                     mLedgerDB := None; mWalletDB := None |}
                  {| dbType := NoDb; dbTarget := EmptyString;
                     dbInit := TxnDBInit |} eq_refl)).
Defined.

End DatabasesFacts.

Module SamplerFacts.
Import Sampler.

Section Probe.

Variable Duration : Type.
Variable ceil_ms : Duration -> Z.

Lemma samples_snoc (l : list Duration) (d : Duration) (s : sampler) :
  samples Duration ceil_ms (l ++ [d]) s
  = sample Duration ceil_ms (samples Duration ceil_ms l s) d.
Proof. unfold samples. now rewrite fold_left_app. Qed.

Lemma reported_samples (l : list Duration) (s : sampler) :
  notifications (reported (samples Duration ceil_ms l s))
  = notifications (reported s)
    ++ filter (fun ms => (10 <=? ms)%Z) (map ceil_ms l) /\
  warnings (reported (samples Duration ceil_ms l s))
  = warnings (reported s)
    ++ filter (fun ms => (500 <=? ms)%Z) (map ceil_ms l).
Proof.
  revert s. induction l as [|d l IH]; intros s; simpl.
  - now rewrite !app_nil_r.
  - destruct (IH (sample Duration ceil_ms s d)) as [-> ->].
    unfold sample, notifications, warnings. cbn [reported].
    rewrite !flat_map_app.
    destruct (10 <=? ceil_ms d)%Z, (500 <=? ceil_ms d)%Z; simpl;
      rewrite ?app_nil_r, <- ?app_assoc; auto.
Qed.

Lemma last_cons (l : list Duration) (a d : Duration) :
  last (a :: l) d = last l a.
Proof.
  revert a d. induction l as [|b l IH]; intros a d; [reflexivity|].
  change (last (a :: b :: l) d) with (last (b :: l) d).
  now rewrite !IH.
Qed.

Lemma lastSample_samples (l : list Duration) (d : Duration) (s : sampler) :
  m_lastSample (samples Duration ceil_ms (d :: l) s)
  = Some (ceil_ms (last l d)).
Proof.
  revert d s. induction l as [|d' l IH]; intros d s; [reflexivity|].
  change (samples Duration ceil_ms (d :: d' :: l) s)
    with (samples Duration ceil_ms (d' :: l) (sample Duration ceil_ms s d)).
  rewrite IH. f_equal. f_equal. symmetry. apply last_cons.
Qed.

(** X18. what the sampler reports.  After any sequence of samples, the
    values notified are those of at least 10 ms and the values warned
    about are those of at least 500 ms, each in the order sampled; so
    every value warned about was also notified, and a sample below
    10 ms is not reported at all.  [get ()] gives the last sample,
    rounded up to milliseconds; before the first sample the member it
    reads has never been written. *)
Theorem sampler_reports (l : list Duration) :
  let s := samples Duration ceil_ms l fresh in
  notifications (reported s)
    = filter (fun ms => (10 <=? ms)%Z) (map ceil_ms l) /\
  warnings (reported s)
    = filter (fun ms => (500 <=? ms)%Z) (map ceil_ms l) /\
  (forall ms, In ms (warnings (reported s)) ->
              In ms (notifications (reported s))) /\
  get s = match l with
          | [] => None
          | d :: l' => Some (ceil_ms (last l' d))
          end.
Proof.
  intros s. destruct (reported_samples l fresh) as [Hn Hw].
  fold s in Hn, Hw. simpl in Hn, Hw.
  split; [assumption|]. split; [assumption|]. split.
  - intros ms. rewrite Hn, Hw, !filter_In.
    intros [Hin H]. split; [assumption|].
    apply Z.leb_le in H. apply Z.leb_le. lia.
  - subst s. destruct l as [|d l']; [reflexivity|].
    apply lastSample_samples.
Qed.

End Probe.

End SamplerFacts.

Module LifecycleFacts.
Import Lifecycle.

Local Abbreviation count := SweepRuns.count.
Local Abbreviation count_app := SweepRunsFacts.count_app.

Lemma beforeStop_app (l1 l2 : list Event) :
  beforeStop (l1 ++ l2) =
    match beforeStop l1 with
    | Some pre => Some pre
    | None =>
        match beforeStop l2 with
        | Some pre => Some (l1 ++ pre)
        | None => None
        end
    end.
Proof.
  induction l1 as [|e l1 IH]; simpl.
  - destruct (beforeStop l2); reflexivity.
  - destruct e; simpl; try reflexivity; rewrite IH;
      destruct (beforeStop l1); try reflexivity;
      destruct (beforeStop l2); reflexivity.
Qed.

Local Ltac inv_split :=
  unfold Inv; cbn [main m_stop trace];
  split; [|split; [|split; [|split; [|split]]]].

Lemma Inv_start (standalone : bool) : Inv (start standalone).
Proof.
  inv_split; try discriminate; try reflexivity.
Qed.

Lemma Inv_emit (a : App) (evs : list Event) (stop : bool) (m : Main) :
  Inv a ->
  count isStop evs = 0%nat -> beforeStop evs = None ->
  (stop = true -> m_stop a = true \/ In EvSignalStop evs) ->
  (main a = Finished <-> m = Finished) ->
  Inv {| RUN_STANDALONE := RUN_STANDALONE a; m_stop := stop;
         main := m; trace := trace a ++ evs |}.
Proof.
  intros (H1 & H2 & H3 & H4 & H5 & H6) Hc Hb Hs Hm.
  assert (Hz : m <> Finished -> count isStop (trace a) = 0%nat).
  { intros Hne. destruct (main a) eqn:E; auto.
    exfalso. apply Hne, Hm. reflexivity. }
  inv_split; rewrite ?count_app, ?beforeStop_app, ?Hc, ?Hb, ?Nat.add_0_r.
  - intros ->. apply Hz. discriminate.
  - intros ->. apply Hz. discriminate.
  - intros ->. apply H3, Hm. reflexivity.
  - intros ->. apply in_app_iff.
    destruct (Hs eq_refl) as [Ha|Ha]; auto.
  - intros pre. destruct (beforeStop (trace a)); [auto|discriminate].
  - intros Hz'. rewrite (H6 Hz'). reflexivity.
Qed.

Lemma act_Inv (a : App) (x : Action) : Inv a -> Inv (act a x).
Proof.
  intros HI.
  assert (Hsig : forall b, Inv b -> Inv (signalStop b)).
  { intros b Hb. apply Inv_emit; simpl; tauto. }
  destruct x as [|ec|]; simpl; [| |now apply Hsig].
  - unfold runStep. destruct (main a) eqn:Hm; [| |assumption].
    + apply Inv_emit; auto.
      * destruct (RUN_STANDALONE a); reflexivity.
      * destruct (RUN_STANDALONE a); reflexivity.
      * rewrite Hm. split; discriminate.
    + destruct (m_stop a) eqn:Hs; [|assumption].
      destruct HI as (H1 & H2 & H3 & H4 & H5 & H6).
      specialize (H2 Hm). specialize (H4 Hs).
      inv_split; rewrite ?count_app, ?beforeStop_app, ?(H6 H2), ?H2;
        try discriminate; try reflexivity.
      simpl. intros pre Hpre. injection Hpre as <-.
      apply in_app_iff. left. assumption.
  - destruct ec; simpl.
    + apply Hsig. unfold emit. apply Inv_emit; simpl; tauto.
    + assumption.
    + unfold emit. apply Inv_emit; simpl; tauto.
Qed.

Lemma runs_Inv (xs : list Action) (a : App) : Inv a -> Inv (runs xs a).
Proof.
  revert a. induction xs as [|x xs IH]; intros a H; simpl; auto.
  apply IH. now apply act_Inv.
Qed.

Lemma no_stop_request (xs : list Action) (a : App) :
  Forall (fun x => stops x = false) xs ->
  m_stop a = false -> count isSignalStop (trace a) = 0%nat ->
  count isStop (trace a) = 0%nat ->
  m_stop (runs xs a) = false /\
  count isSignalStop (trace (runs xs a)) = 0%nat /\
  count isStop (trace (runs xs a)) = 0%nat.
Proof.
  revert a. induction xs as [|x xs IH]; intros a Hxs Hs Hc Hst; simpl; auto.
  inversion Hxs as [|? ? Hx Hxs']; subst.
  destruct x as [|[]|]; simpl in Hx; try discriminate; simpl.
  - apply IH; auto; unfold runStep; rewrite Hs;
      destruct (main a); cbn [m_stop trace]; rewrite ?count_app, ?Hc, ?Hst;
      auto; destruct (RUN_STANDALONE a); reflexivity.
  - apply IH; auto.
  - apply IH; auto; cbn [emit m_stop trace];
      rewrite ?count_app, ?Hc, ?Hst; reflexivity.
Qed.

(** X19. shutting down once, and only when asked.  However the main
    thread, the signal deliveries and other callers of [signalStop]
    interleave, [run] calls [stop] at most once, and never before
    [signalStop] has been called.  A signal delivered with an error or
    as aborted never leads to [signalStop]: when every delivery is of
    that kind and nothing else asks to stop, [run] never reaches
    [stop]. *)
Theorem run_stops_once_when_asked (standalone : bool) (xs : list Action) :
  let a := runs xs (start standalone) in
  (count isStop (trace a) <= 1)%nat /\
  (forall pre, beforeStop (trace a) = Some pre -> In EvSignalStop pre) /\
  (Forall (fun x => stops x = false) xs ->
   count isSignalStop (trace a) = 0%nat /\ count isStop (trace a) = 0%nat).
Proof.
  intros a.
  destruct (runs_Inv xs (start standalone) (Inv_start standalone))
    as (H1 & H2 & H3 & _ & H5 & _).
  fold a in H1, H2, H3, H5.
  split; [destruct (main a); [rewrite H1|rewrite H2|rewrite H3]; auto|].
  split; [assumption|].
  intros Hxs.
  destruct (no_stop_request xs (start standalone) Hxs eq_refl eq_refl eq_refl)
    as (_ & Ha & Hb).
  auto.
Qed.

Lemma run_stops_once_when_asked_witness :
  Forall (fun x => stops x = false)
    [Run; Deliver operation_aborted; Deliver (failure "EINTR"); Run] /\
  count isStop
    (trace (runs [Run; Deliver operation_aborted; Deliver (failure "EINTR");
                  Run] (start false))) = 0%nat.
Proof.
  split; [repeat constructor|].
  apply (proj2 (proj2 (run_stops_once_when_asked false
           [Run; Deliver operation_aborted; Deliver (failure "EINTR"); Run]))).
  repeat constructor.
Defined.

(** A second request changes nothing: [run] stops once. *)
Example two_requests_one_stop :
  trace (runs [Run; Deliver success; Stop; Run; Run; Deliver success; Run]
           (start true))
  = [EvPrepare; EvStart; EvDebug "Received signal: "; EvSignalStop;
     EvSignalStop; EvInfo "Received shutdown request"; EvStop;
     EvInfo "Done."; EvStopSustain; EvDebug "Received signal: ";
     EvSignalStop].
Proof. reflexivity. Qed.

End LifecycleFacts.

Module SchemaFacts.
Import Schema.

Lemma prefix_occurs (c s : string) :
  String.prefix c s = true <-> exists post, s = (c ++ post)%string.
Proof.
  revert s. induction c as [|a c IH]; intros s; simpl.
  - split; [intros _; now exists s|intros _; destruct s; reflexivity].
  - destruct s as [|b s]; simpl;
      [split; [discriminate|intros [post H]; discriminate]|].
    destruct (Ascii.ascii_dec a b) as [->|Hne].
    + rewrite IH. split; intros [post H]; exists post; congruence.
    + split; [discriminate|]. intros [post H]. congruence.
Qed.

Lemma find_occurs (row content : string) :
  find row content <> None <-> occurs content row.
Proof.
  unfold find, occurs. induction row as [|b row IH].
  - simpl. destruct content as [|a content]; simpl.
    + split; [intros _; now exists EmptyString, EmptyString|discriminate].
    + split; [congruence|]. intros (pre & post & H).
      destruct pre; discriminate.
  - cbn [String.index].
    destruct (String.prefix content (String b row)) eqn:Hp.
    + split; [intros _|discriminate].
      apply prefix_occurs in Hp. destruct Hp as [post ->].
      now exists EmptyString, post.
    + assert (Hn : ~ exists post, String b row = (content ++ post)%string).
      { intros H. apply prefix_occurs in H. congruence. }
      destruct (String.index 0 content row) as [n|].
      * split; [intros _|discriminate].
        destruct (proj1 IH ltac:(discriminate)) as (pre & post & ->).
        now exists (String b pre), post.
      * split; [congruence|]. intros (pre & post & H).
        destruct pre as [|b' pre].
        -- exfalso. apply Hn. now exists post.
        -- simpl in H. injection H as _ H.
           exfalso. apply (proj2 IH); [now exists pre, post|reflexivity].
Qed.

Section Database.

Variable dbc : string -> list string.

(** X20. looking at one line of a schema.  For a table whose schema has
    fewer than 2^31 rows and a line number that is an [int]:
    [schemaHas] throws "bad schema", after logging that the schema has
    too few lines, exactly when the line number is at or past the
    number of rows; for a line number within the rows it returns
    whether the content occurs anywhere in that row; and a negative
    line number passes the check and reads past the end of the rows. *)
Theorem schemaHas_cases (dbName : string) (line : Z) (content : string) :
  (Z.of_nat (List.length (dbc dbName)) < 2147483648)%Z ->
  (-2147483648 <= line < 2147483648)%Z ->
  ((Z.of_nat (List.length (dbc dbName)) <= line)%Z ->
   schemaHas dbc dbName line content
   = Throws ("Schema for " ++ dbName ++ " has too few lines") "bad schema") /\
  ((0 <= line < Z.of_nat (List.length (dbc dbName)))%Z ->
   exists row b,
     nth_error (dbc dbName) (Z.to_nat line) = Some row /\
     schemaHas dbc dbName line content = Returns b /\
     (b = true <-> occurs content row)) /\
  ((line < 0)%Z -> schemaHas dbc dbName line content = Undefined).
Proof.
  intros Hlen Hline. unfold schemaHas, getSchema.
  assert (Hc : static_cast_int (Z.of_nat (List.length (dbc dbName)))
               = Z.of_nat (List.length (dbc dbName))).
  { unfold static_cast_int. rewrite Z.mod_small; lia. }
  rewrite Hc. split; [|split].
  - intros H. apply Z.leb_le in H. now rewrite H.
  - intros H. destruct (Z.leb_spec (Z.of_nat (List.length (dbc dbName))) line);
      [lia|].
    unfold to_size_t. rewrite Z.mod_small by lia.
    destruct (nth_error (dbc dbName) (Z.to_nat line)) as [row|] eqn:Hr.
    + exists row. eexists. split; [reflexivity|]. split; [reflexivity|].
      rewrite <- find_occurs. destruct (find row content);
        split; congruence.
    + apply nth_error_None in Hr. lia.
  - intros H. destruct (Z.leb_spec (Z.of_nat (List.length (dbc dbName))) line);
      [lia|].
    assert (Hi : (List.length (dbc dbName)
                  <= Z.to_nat (to_size_t line))%nat).
    { unfold to_size_t.
      replace (line mod 18446744073709551616)%Z
        with (line + 18446744073709551616)%Z; [lia|].
      apply Z.mod_unique with (q := (-1)%Z); lia. }
    apply nth_error_None in Hi. now rewrite Hi.
Qed.

End Database.

Lemma schemaHas_cases_witness :
  schemaHas (fun _ => ["CREATE TABLE AccountTransactions (TransID CHARACTER(64))"])
    "AccountTransactions" (-1) "TxnSeq" = Undefined.
Proof.
  apply (proj2 (proj2 (schemaHas_cases
    (fun _ => ["CREATE TABLE AccountTransactions (TransID CHARACTER(64))"])
    "AccountTransactions" (-1) "TxnSeq" ltac:(simpl; lia) ltac:(lia)))).
  lia.
Defined.

End SchemaFacts.
